(** * Solar system visualisation: orbit updater, camera controllers, info panels

    A shallow embedding of the per-frame logic of the repository.

    Conventions of the embedding.
    - A JavaScript [number] is a real number ([R]); [Math.sin], [Math.cos],
      [Math.exp] and [Math.abs] are [sin], [cos], [exp] and [Rabs].  Rounding
      of IEEE doubles is outside the model.
    - A [THREE.Vector3] is a record of three numbers; the methods that mutate
      a vector in place ([lerp], [add], [copy], [set]) return the new value.
    - A [useFrame] callback is a function from the values it reads on that
      frame (clock, delta, pointer, store) and the mutable state it closes
      over to the new state.
    - A React ref is an [option]: [None] while nothing is mounted.
    - A string or object used as a condition follows JavaScript truthiness:
      [null] and the empty string are falsy, every object is truthy. *)

From Stdlib Require Import Reals Lra Lia List.
From stdpp Require Import base option gmap strings.
Import ListNotations.

Open Scope R_scope.

(** ** three.js: vectors *)

Module THREE.

Record Vector3 : Type := mkVector3 { x : R; y : R; z : R }.

(** [new THREE.Vector3()] *)
Definition zero : Vector3 := mkVector3 0 0 0.

(** [v.clone().add(w)] *)
Definition add (v w : Vector3) : Vector3 :=
  mkVector3 (x v + x w) (y v + y w) (z v + z w).

(** Modelled from the spec: [Vector3.lerp] belongs to the three.js library,
    which is not part of src/.  The spec gives
    [lerp(v, d, alpha) = v + (d - v) * alpha]; three.js implements it
    component by component as [this.x += (v.x - this.x) * alpha]. *)
Definition lerp (v d : Vector3) (alpha : R) : Vector3 :=
  mkVector3 (x v + (x d - x v) * alpha)
            (y v + (y d - y v) * alpha)
            (z v + (z d - z v) * alpha).

(** A scene-graph node.  [position] is the local position the frame
    callbacks write; [worldOrigin] is the image of the local origin under
    the node's world matrix, which is what [localToWorld] of [(0,0,0)]
    returns; [rotationY] is [rotation.y]. *)
Record Group : Type := mkGroup
  { position : Vector3; rotationY : R; worldOrigin : Vector3 }.

(** The camera: where it is and the point last passed to [lookAt]. *)
Record Camera : Type := mkCamera
  { camPosition : Vector3; camLookAt : Vector3 }.

End THREE.

Import THREE.

(** JavaScript truthiness of a [string | null]. *)
Definition truthy (s : option string) : bool :=
  match s with
  | None => false
  | Some n => if decide (n = "") then false else true
  end.

(** The property names every object literal inherits from
    [Object.prototype].  Looking one of them up in a table written as an
    object literal gives the inherited function or object, not
    [undefined]; the finite maps below stand for the tables on all other
    names. *)
Definition Object_prototype_keys : list string :=
  [ "constructor"; "__defineGetter__"; "__defineSetter__"; "hasOwnProperty";
    "__lookupGetter__"; "__lookupSetter__"; "isPrototypeOf";
    "propertyIsEnumerable"; "toString"; "valueOf"; "__proto__";
    "toLocaleString" ].

(** ** src/components/Planet.tsx *)

Module Planet.

(** The props that carry data; [texture] is the URL of an image, [onClick]
    and [refGroup] are passed where they are used. *)
Record PlanetProps : Type := mkProps
  { name : string;
    size : R;
    distance : R;
    rotationSpeed : R;
    orbitSpeed : option R  (* [orbitSpeed?: number] *) }.

(** The destructuring default [orbitSpeed = 0.2]. *)
Definition orbitSpeed_or_default (p : PlanetProps) : R :=
  default 0.2 (orbitSpeed p).

(** [clock.getElapsedTime() * orbitSpeed] *)
Definition angle (speed elapsed : R) : R := elapsed * speed.

(** The two assignments to [x] and [z] and the one to [y], as a function
    of radius, speed and elapsed time. *)
Definition orbitPosition (dist speed elapsed : R) : Vector3 :=
  let t := angle speed elapsed in
  mkVector3 (dist * cos t) 0 (dist * sin t).

(** [refGroup?.current || mesh.current]: [refGroup] is an optional prop
    holding a ref, [mesh] is the local ref. *)
Definition current (refGroup : option (option Group)) (mesh : option Group)
  : option Group :=
  match refGroup with
  | Some (Some g) => Some g
  | _ => mesh
  end.

(** Body of the [if (current)] block. *)
Definition update (p : PlanetProps) (elapsed : R) (g : Group) : Group :=
  mkGroup (orbitPosition (distance p) (orbitSpeed_or_default p) elapsed)
          (rotationY g + rotationSpeed p)
          (worldOrigin g).

(** The [useFrame] callback: the node it picked, after the update, or
    [None] when no node is mounted. *)
Definition useFrame (p : PlanetProps) (elapsed : R)
    (refGroup : option (option Group)) (mesh : option Group)
  : option Group :=
  update p elapsed <$> current refGroup mesh.

(** Successive frames of one mounted planet, given by the elapsed times the
    clock showed, oldest first. *)
Definition run (p : PlanetProps) (ts : list R) (g : Group) : Group :=
  fold_left (fun g t => update p t g) ts g.

End Planet.

(** ** The camera controller of the current scene (unnamed/part_001) *)

Module CameraController.

(** The four refs of the component and the camera it drives. *)
Record State : Type := mkState
  { smoothedPlanet : Vector3;
    smoothedCamera : Vector3;
    lastDir : Vector3;
    isActive : bool;
    camera : Camera }.

(** What one frame reads: the store flag, the result of
    [getPlanetPosition?.()], [clock.getElapsedTime()] and [delta]. *)
Record Frame : Type := mkFrame
  { isFocusing : bool; target : option Vector3; time : R; delta : R }.

Definition defaultPos : Vector3 := mkVector3 0 40 120.

(** [1 - Math.exp(-delta * k)] *)
Definition blend (k delta : R) : R := 1 - exp (- delta * k).

(** The [desired] vector of the focus branch, around the already smoothed
    planet position [sp]. *)
Definition desired (sp : Vector3) (time : R) : Vector3 :=
  let orbitRadius := 10 in
  let orbitSpeed := 0.2 in
  let orbitHeight := 3 in
  let zoomPulse := sin (time * 0.5) * 1.2 in
  let currentRadius := orbitRadius + zoomPulse in
  let orbitX := sin (time * orbitSpeed) * currentRadius in
  let orbitZ := cos (time * orbitSpeed) * currentRadius in
  mkVector3 (x sp + orbitX) (y sp + orbitHeight) (z sp + orbitZ).

Section WithCamera.

(** [camera.getWorldDirection], a three.js method of the camera: only
    its result is stored, nothing reads it back. *)
Variable getWorldDirection : Camera -> Vector3.

(** The [if (isFocusing && target)] branch. *)
Definition focus (tgt : Vector3) (time delta : R) (s : State) : State :=
  let dir := if isActive s then lastDir s
             else getWorldDirection (camera s) in
  let sp := lerp (smoothedPlanet s) tgt (blend 4 delta) in
  let sc := lerp (smoothedCamera s) (desired sp time) (blend 3 delta) in
  mkState sp sc dir true (mkCamera sc sp).

(** The [else] branch: back to the default system view. *)
Definition relax (s : State) : State :=
  let sc := lerp (smoothedCamera s) defaultPos 0.05 in
  let sp := lerp (smoothedPlanet s) (mkVector3 0 0 0) 0.05 in
  mkState sp sc (lastDir s) false (mkCamera sc sp).

(** The [useFrame] callback. *)
Definition useFrame (f : Frame) (s : State) : State :=
  match isFocusing f, target f with
  | true, Some tgt => focus tgt (time f) (delta f) s
  | _, _ => relax s
  end.

(** A session: the callback applied to successive frames, oldest
    first. *)
Definition run (fs : list Frame) (s : State) : State :=
  fold_left (fun s f => useFrame f s) fs s.

End WithCamera.

(** The refs as [useRef] creates them, around the canvas camera. *)
Definition init (cam : Camera) : State :=
  mkState zero (mkVector3 0 40 120) (mkVector3 0 0 (-1)) false cam.

(** The condition [isFocusing && target] of a frame. *)
Definition focused (f : Frame) : bool :=
  match isFocusing f, target f with
  | true, Some _ => true
  | _, _ => false
  end.

End CameraController.

(** ** The current scene (unnamed/part_003) *)

Module SolarSystem.

Record Ring : Type := mkRing { inner : R; outer : R }.

(** [PlanetData] without the texture URLs. *)
Record PlanetData : Type := mkPlanet
  { name : string;
    size : R;
    distance : R;
    rotationSpeed : R;
    orbitSpeed : R;
    ring : option Ring }.

(** [width < 480 ? 0.9 : width < 1024 ? 0.8 : 1] *)
Definition scaleFactor (width : R) : R :=
  if Rlt_dec width 480 then 0.9
  else if Rlt_dec width 1024 then 0.8 else 1.

(** [cameraPos], the initial camera position handed to the canvas. *)
Definition cameraPos (width : R) : Vector3 :=
  if Rlt_dec width 480 then mkVector3 0 25 80
  else if Rlt_dec width 1024 then mkVector3 0 35 110
  else mkVector3 0 40 120.

Definition planets (width : R) : list PlanetData :=
  let k := scaleFactor width in
  [ mkPlanet "Mercury" (0.8 * k) (10 * k) 0.02 1.0 None;
    mkPlanet "Venus" (1.2 * k) (14 * k) 0.015 0.8 None;
    mkPlanet "Earth" (1.3 * k) (18 * k) 0.02 0.6 None;
    mkPlanet "Mars" (1.0 * k) (23 * k) 0.018 0.5 None;
    mkPlanet "Jupiter" (3.5 * k) (32 * k) 0.04 0.25 None;
    mkPlanet "Saturn" (3.0 * k) (42 * k) 0.038 0.18
             (Some (mkRing (3.5 * k) (5.5 * k)));
    mkPlanet "Uranus" (2.3 * k) (50 * k) 0.03 0.12 None;
    mkPlanet "Neptune" (2.2 * k) (58 * k) 0.028 0.1 None ].

Definition planetInfo : gmap string string :=
  list_to_map
    [ ("Mercury", "Smallest planet, closest to the Sun.");
      ("Venus", "Hottest planet with dense atmosphere.");
      ("Earth", "Our home world with oceans and life.");
      ("Mars", "The Red Planet, target for exploration.");
      ("Jupiter", "Gas giant with Great Red Spot.");
      ("Saturn", "Known for its magnificent rings.");
      ("Uranus", "An ice giant tilted on its side.");
      ("Neptune", "Cold, windy, and farthest planet.") ].

(** *** PlanetGroup *)

(** [clock.elapsedTime * planet.orbitSpeed] *)
Definition angle (p : PlanetData) (elapsed : R) : R :=
  elapsed * orbitSpeed p.

(** The triple passed to [position.set]. *)
Definition orbitPosition (p : PlanetData) (elapsed : R) : Vector3 :=
  let t := angle p elapsed in
  mkVector3 (distance p * cos t) 0 (distance p * sin t).

(** The [useFrame] callback of [PlanetGroup]:
    [if (planetRef.current) planetRef.current.position.set(x, 0, z)]. *)
Definition PlanetGroup_useFrame (p : PlanetData) (elapsed : R)
    (planetRef : option Group) : option Group :=
  (fun g => mkGroup (orbitPosition p elapsed) (rotationY g) (worldOrigin g))
    <$> planetRef.

(** *** Selection, info panel and target lookup *)

(** [selected] and [showHint] are component state, [isFocusing] lives in
    the store. *)
Record UI : Type := mkUI
  { selected : option string; isFocusing : bool; showHint : bool }.

Definition initUI : UI := mkUI None false true.

Definition handleClick (n : string) (u : UI) : UI :=
  mkUI (Some n) true (showHint u).

Definition handleBack (u : UI) : UI :=
  mkUI None false (showHint u).

(** The five-second timer of the hint. *)
Definition hideHint (u : UI) : UI :=
  mkUI (selected u) (isFocusing u) false.

(** The states the handlers can produce: [onClick] of a [PlanetGroup]
    passes [planet.name] of a row of the table. *)
Inductive reachable (width : R) : UI -> Prop :=
| reach_init : reachable width initUI
| reach_click p u :
    reachable width u -> In p (planets width) ->
    reachable width (handleClick (name p) u)
| reach_back u : reachable width u -> reachable width (handleBack u)
| reach_hint u : reachable width u -> reachable width (hideHint u).

(** What [InfoPanel] shows: the heading and [planetInfo[name]], which is
    [undefined] for a key the table lacks, the names of
    [Object_prototype_keys] apart. *)
Record Panel : Type := mkPanel { heading : string; text : option string }.

Definition InfoPanel (n : string) : Panel :=
  mkPanel n (planetInfo !! n).

(** [{selected && <InfoPanel name={selected} />}] *)
Definition renderInfoPanel (u : UI) : option Panel :=
  match selected u with
  | Some n => if truthy (Some n) then Some (InfoPanel n) else None
  | None => None
  end.

(** [getPlanetPosition]: the value returned and the new content of the
    shared [smoothedTarget] vector.  [planetRefs[selected]] is [undefined]
    for an unknown key, and a ref holds [null] until its group mounts. *)
Definition getPlanetPosition (sel : option string)
    (planetRefs : gmap string (option Group)) (smoothedTarget : Vector3)
  : option Vector3 * Vector3 :=
  match sel with
  | Some n =>
      if truthy (Some n) then
        match planetRefs !! n with
        | Some (Some g) =>
            let st := lerp smoothedTarget (worldOrigin g) 0.2 in
            (Some st, st)
        | _ => (Some smoothedTarget, smoothedTarget)
        end
      else (None, smoothedTarget)
  | None => (None, smoothedTarget)
  end.

(** One frame of the scene's camera: the controller calls the getter and
    then runs its own callback on what came back. *)
Definition cameraFrame (getWorldDirection : Camera -> Vector3) (u : UI)
    (planetRefs : gmap string (option Group)) (time delta : R)
    (st : Vector3 * CameraController.State)
  : Vector3 * CameraController.State :=
  let r := getPlanetPosition (selected u) planetRefs (fst st) in
  (snd r,
   CameraController.useFrame getWorldDirection
     (CameraController.mkFrame (isFocusing u) (fst r) time delta) (snd st)).

(** Successive frames of one mounted [PlanetGroup]. *)
Definition PlanetGroup_run (p : PlanetData) (ts : list R) (g : Group)
  : Group :=
  fold_left
    (fun g t => mkGroup (orbitPosition p t) (rotationY g) (worldOrigin g))
    ts g.


(** [Orbit]: the vertices of the line, [i] running from 0 to 128
    inclusive. *)
Definition Orbit (dist : R) : list Vector3 :=
  map (fun i : nat =>
         let a := INR i / 128 * 2 * PI in
         mkVector3 (cos a * dist) 0 (sin a * dist))
      (seq 0 129).

(** The first argument of the [sphereGeometry] of [Sun]. *)
Definition Sun_radius : R := 5.

(** How far a planet reaches from its centre in the orbital plane: the
    radius of its sphere, or the outer radius of its ring, which lies in
    that plane. *)
Definition extent (p : PlanetData) : R :=
  match ring p with
  | Some r => Rmax (size p) (outer r)
  | None => size p
  end.

(** The shared [smoothedTarget] after [n] calls of the getter with the
    same selection and refs. *)
Definition poll (sel : option string)
    (planetRefs : gmap string (option Group)) (n : nat) (st : Vector3)
  : Vector3 :=
  Nat.iter n (fun st => snd (getPlanetPosition sel planetRefs st)) st.

End SolarSystem.

(** ** src/components/CameraController.tsx: the orbiting controller *)

Module OrbitCameraController.

(** [mouse], the pointer in normalised device coordinates. *)
Record Vector2 : Type := mkVector2 { mx : R; my : R }.

(** The local [angle] of the component and the camera. *)
Record State : Type := mkState { angle : R; camera : Camera }.

Definition radius : R := 60.
Definition height : R := 20.
Definition rotationSpeed : R := 0.001.

(** [let angle = 0] *)
Definition init (cam : Camera) : State := mkState 0 cam.

(** The point the free branch steers the camera to, for the angle already
    advanced. *)
Definition orbitPoint (a : R) (mouse : Vector2) (elapsed : R) : Vector3 :=
  let px := radius * cos a + mx mouse * 5 in
  let pz := radius * sin a + my mouse * 5 in
  let py := height + sin (elapsed * 0.2) * 5 in
  mkVector3 px py pz.

(** The [else] branch: free orbit around the system centre. *)
Definition freeOrbit (mouse : Vector2) (elapsed : R) (s : State) : State :=
  let a := angle s + rotationSpeed in
  mkState a (mkCamera (lerp (camPosition (camera s))
                            (orbitPoint a mouse elapsed) 0.05)
                      (mkVector3 0 0 0)).

(** The inner [if (planetPos)] block. *)
Definition follow (planetPos : Vector3) (s : State) : State :=
  let desiredPosition := add planetPos (mkVector3 0 5 15) in
  mkState (angle s)
          (mkCamera (lerp (camPosition (camera s)) desiredPosition 0.08)
                    (add planetPos (mkVector3 0 2 0))).

(** The [useFrame] callback.  [targetPlanet] is the store value;
    [getPlanetPosition] is the optional prop, given here by what the call
    returns on this frame. *)
Definition useFrame (targetPlanet : option Vector3)
    (getPlanetPosition : option (option Vector3))
    (mouse : Vector2) (elapsed : R) (s : State) : State :=
  match targetPlanet, getPlanetPosition with
  | Some _, Some r =>
      match r with
      | Some planetPos => follow planetPos s
      | None => s
      end
  | _, _ => freeOrbit mouse elapsed s
  end.

(** What varies from frame to frame under one render of the component:
    what the getter returns, the pointer and the clock. *)
Record Tick : Type := mkTick
  { planetPos : option Vector3; mouse : Vector2; elapsed : R }.

(** The frames between two renders: the store value [targetPlanet] and
    whether the prop was passed are fixed, the callback runs once per
    tick. *)
Definition run (targetPlanet : option Vector3) (hasGetter : bool)
    (ticks : list Tick) (s : State) : State :=
  fold_left
    (fun s t =>
       useFrame targetPlanet
         (if hasGetter then Some (planetPos t) else None)
         (mouse t) (elapsed t) s)
    ticks s.

End OrbitCameraController.

(** ** The self-contained scene (unnamed/part_002) *)

Module InlineSolarSystem.

Record Vector2 : Type := mkVector2 { mx : R; my : R }.

Record State : Type := mkState { angle : R; camera : Camera }.

Definition radius : R := 60.
Definition height : R := 20.
Definition rotationSpeed : R := 0.001.

Definition init (cam : Camera) : State := mkState 0 cam.

(** As above, with [performance.now() * 0.002] for the phase of the
    height. *)
Definition orbitPoint (a : R) (mouse : Vector2) (now : R) : Vector3 :=
  let px := radius * cos a + mx mouse * 5 in
  let pz := radius * sin a + my mouse * 5 in
  let py := height + sin (now * 0.002) * 5 in
  mkVector3 px py pz.

Definition freeOrbit (mouse : Vector2) (now : R) (s : State) : State :=
  let a := angle s + rotationSpeed in
  mkState a (mkCamera (lerp (camPosition (camera s))
                            (orbitPoint a mouse now) 0.05)
                      (mkVector3 0 0 0)).

Definition follow (g : Group) (s : State) : State :=
  let planetPos := position g in
  let desiredPos := add planetPos (mkVector3 0 5 15) in
  mkState (angle s)
          (mkCamera (lerp (camPosition (camera s)) desiredPos 0.08)
                    (add planetPos (mkVector3 0 2 0))).

(** The [useFrame] callback of the inline [CameraController]. *)
Definition CameraController_useFrame (targetPlanetName : option string)
    (planetRefs : gmap string (option Group))
    (mouse : Vector2) (now : R) (s : State) : State :=
  match targetPlanetName with
  | Some n =>
      if truthy (Some n) then
        match planetRefs !! n with
        | Some (Some g) => follow g s
        | _ => s
        end
      else freeOrbit mouse now s
  | None => freeOrbit mouse now s
  end.

(** A row of [planets], without its texture URL; [rotationSpeedOf] is the
    row's [rotationSpeed], the bare name being the controller's constant. *)
Record PlanetRow : Type := mkRow
  { name : string; size : R; distance : R; rotationSpeedOf : R }.

Definition planets : list PlanetRow :=
  [ mkRow "Mercury" 1 8 0.02;
    mkRow "Venus" 1.5 12 0.015;
    mkRow "Earth" 2 16 0.02;
    mkRow "Mars" 1.2 20 0.018 ].

Definition planetInfo : gmap string string :=
  list_to_map
    [ ("Mercury", "Smallest planet, closest to the Sun");
      ("Venus", "Hottest planet with thick clouds");
      ("Earth", "Our home planet with abundant life");
      ("Mars", "The Red Planet, potential for future colonies") ].

(** The store: [targetPlanetName], written by [setTarget]. *)
Definition setTarget (n : option string) (_ : option string)
  : option string := n.

(** The names the scene itself stores: a click passes the [name] of a row,
    the back button passes [null]. *)
Inductive reachable : option string -> Prop :=
| reach_init : reachable None
| reach_click p t :
    reachable t -> In p planets ->
    reachable (setTarget (Some (name p)) t)
| reach_back t : reachable t -> reachable (setTarget None t).

(** [InfoOverlay]: [None] when it returns [null], else the content of the
    [div], [planetInfo[targetPlanetName]], [undefined] for a key the table
    lacks, the names of [Object_prototype_keys] apart. *)
Definition InfoOverlay (targetPlanetName : option string)
  : option (option string) :=
  match targetPlanetName with
  | Some n => if truthy (Some n) then Some (planetInfo !! n) else None
  | None => None
  end.

(** What varies from frame to frame under one render of the inline
    controller: the refs' content, the pointer and [performance.now()]. *)
Record Tick : Type := mkTick
  { planetRefs : gmap string (option Group); mouse : Vector2; now : R }.

Definition run (targetPlanetName : option string) (ticks : list Tick)
    (s : State) : State :=
  fold_left
    (fun s t =>
       CameraController_useFrame targetPlanetName (planetRefs t)
         (mouse t) (now t) s)
    ticks s.

End InlineSolarSystem.

(** ** The position-keyed overlay (unnamed/part_000) *)

Module OverlayInfo.

Record PlanetRow : Type := mkRow { name : string; distance : R; info : string }.

Definition planets : list PlanetRow :=
  [ mkRow "Mercury" 8 "Smallest planet, closest to the Sun";
    mkRow "Venus" 12 "Hottest planet with thick clouds";
    mkRow "Earth" 16 "Our home planet";
    mkRow "Mars" 20 "The Red Planet" ].

(** [Math.abs(p.distance - x) < 1] *)
Definition near (vx : R) (p : PlanetRow) : bool :=
  if Rlt_dec (Rabs (distance p - vx)) 1 then true else false.

(** The effect: the value given to [setInfo] for a store value
    [targetPlanet]. *)
Definition effect (targetPlanet : option Vector3) : string :=
  match targetPlanet with
  | Some v =>
      match find (near (x v)) planets with
      | Some planet => info planet
      | None => ""
      end
  | None => ""
  end.

(** The render for a given [info] state: [None] for [return null], else the
    text inside the [motion.div]. *)
Definition render (i : string) : option string :=
  if decide (i = "") then None else Some i.

(** The overlay once the effect has run for the current store value. *)
Definition OverlayInfo (targetPlanet : option Vector3) : option string :=
  render (effect targetPlanet).

End OverlayInfo.

(** ** Properties stated below *)

(** A point of the horizontal circle of radius [r] around the origin. *)
Definition on_circle (r : R) (v : Vector3) : Prop :=
  x v * x v + z v * z v = r * r /\ y v = 0.

(** [c] lies between [a] and [b], whichever of the two is the larger. *)
Definition between (a b c : R) : Prop :=
  Rmin a b <= c <= Rmax a b.

(** Component-wise [between]. *)
Definition between3 (a b c : Vector3) : Prop :=
  between (x a) (x b) (x c) /\ between (y a) (y b) (y c)
  /\ between (z a) (z b) (z c).

(** Component-wise distance below [eps]. *)
Definition within (eps : R) (a b : Vector3) : Prop :=
  Rabs (x a - x b) < eps /\ Rabs (y a - y b) < eps /\ Rabs (z a - z b) < eps.

(** ** Sample inputs *)

(** The Earth row of the self-contained scene, as [Planet] receives it:
    no [orbitSpeed]. *)
Definition earth_props : Planet.PlanetProps :=
  Planet.mkProps "Earth" 2 16 0.02 None.

(** The Earth row of the current scene on a wide window. *)
Definition earth_wide : SolarSystem.PlanetData :=
  SolarSystem.mkPlanet "Earth" (1.3 * 1) (18 * 1) 0.02 0.6 None.

(** An orbit of radius 16 run at angular speed 0.6. *)
Definition scenario_planet : SolarSystem.PlanetData :=
  SolarSystem.mkPlanet "Earth" 2 16 0.02 0.6 None.

Definition group0 : Group := mkGroup zero 0 zero.

(** A camera at the origin, and a stand-in for [getWorldDirection]. *)
Definition camera0 : Camera := mkCamera zero zero.
Definition forward (_ : Camera) : Vector3 := mkVector3 0 0 (-1).

(** The smoothing controller in mid-follow, close to a planet. *)
Definition following : CameraController.State :=
  CameraController.mkState (mkVector3 10 0 0) (mkVector3 10 3 10)
    (mkVector3 0 0 (-1)) true (mkCamera (mkVector3 10 3 10) (mkVector3 10 0 0)).

(** The orbiting controller with its camera on the circle of radius 60 at
    height 20, angle still 0. *)
Definition orbiting : OrbitCameraController.State :=
  OrbitCameraController.mkState 0 (mkCamera (mkVector3 60 20 0) zero).

(** An Earth that has run a quarter of its orbit of radius 16. *)
Definition quarter_orbit : Vector3 := mkVector3 0 0 16.

(** Planets given an [orbitSpeed]: the speed 0.6 of the current scene's
    Earth, no speed at all, and a backwards one. *)
Definition fast_props : Planet.PlanetProps :=
  Planet.mkProps "Earth" 2 16 0.02 (Some 0.6).
Definition still_props : Planet.PlanetProps :=
  Planet.mkProps "Earth" 2 16 0.02 (Some 0).
Definition retrograde_props : Planet.PlanetProps :=
  Planet.mkProps "Earth" 2 16 0.02 (Some (-0.2)).

(** ** Further notions and sample inputs *)

(** The time a list of frames spans: the sum of their [delta]. *)
Definition totalDelta (fs : list CameraController.Frame) : R :=
  fold_right (fun f acc => CameraController.delta f + acc) 0 fs.

(** [v] is inside the axis-parallel box with corners [lo] and [hi]. *)
Definition in_box (lo hi v : Vector3) : Prop :=
  (x lo <= x v <= x hi) /\ (y lo <= y v <= y hi) /\ (z lo <= z v <= z hi).

(** Squared distance of two points in the orbital plane. *)
Definition planar_dist2 (a b : Vector3) : R :=
  (x a - x b) * (x a - x b) + (z a - z b) * (z a - z b).

(** Two focus frames on a planet at [(18, 0, 0)], and a frame of the
    default view. *)
Definition focus_frame_a : CameraController.Frame :=
  CameraController.mkFrame true (Some (mkVector3 18 0 0)) 2 (1 / 60).
Definition focus_frame_b : CameraController.Frame :=
  CameraController.mkFrame true (Some (mkVector3 18 0 0)) 2.05 (1 / 20).
Definition default_frame : CameraController.Frame :=
  CameraController.mkFrame false None 3 (1 / 60).

(** The refs of the current scene with only Earth mounted, at
    [(18, 0, 0)]. *)
Definition earth_mounted : gmap string (option Group) :=
  {[ "Earth" := Some (mkGroup (mkVector3 18 0 0) 0 (mkVector3 18 0 0)) ]}.

(** A tick of the orbiting controller whose getter finds nothing. *)
Definition blind_tick : OrbitCameraController.Tick :=
  OrbitCameraController.mkTick None (OrbitCameraController.mkVector2 0 0) 1.

(** A tick of the orbiting controller with the planet at [(16, 0, 0)]. *)
Definition earth_tick : OrbitCameraController.Tick :=
  OrbitCameraController.mkTick (Some (mkVector3 16 0 0))
    (OrbitCameraController.mkVector2 0 0) 1.

(** A tick of the inline controller with no ref mounted. *)
Definition empty_tick : InlineSolarSystem.Tick :=
  InlineSolarSystem.mkTick ∅ (InlineSolarSystem.mkVector2 0 0) 1000.

(** * Orbit position updater *)

Lemma circle_point (r a : R) :
  on_circle r (mkVector3 (r * cos a) 0 (r * sin a)).
Proof.
  split; cbn; [|reflexivity].
  pose proof (sin2_cos2 a) as H. unfold Rsqr in H. nra.
Qed.

Lemma vector3_eq (a b c a' b' c' : R) :
  a = a' -> b = b' -> c = c' -> mkVector3 a b c = mkVector3 a' b' c'.
Proof. congruence. Qed.

(** C2.  On every frame on which a planet's node is mounted, the orbit
    update writes a position with [x * x + z * z = distance * distance] and
    [y = 0], for both planet components and every elapsed time. *)
Theorem orbit_position_on_circle
    (p : Planet.PlanetProps) (q : SolarSystem.PlanetData) (elapsed : R)
    (refGroup : option (option Group)) (mesh : option Group) (g : Group) :
  Planet.current refGroup mesh = Some g ->
  (exists g', Planet.useFrame p elapsed refGroup mesh = Some g'
              /\ on_circle (Planet.distance p) (position g'))
  /\ (exists g', SolarSystem.PlanetGroup_useFrame q elapsed (Some g) = Some g'
                 /\ on_circle (SolarSystem.distance q) (position g')).
Proof.
  intros Hcur. split.
  - unfold Planet.useFrame. rewrite Hcur. eexists. split; [reflexivity|].
    apply circle_point.
  - eexists. split; [reflexivity|]. apply circle_point.
Qed.

Lemma orbit_position_on_circle_witness :
  exists g', Planet.useFrame earth_props 1 None (Some group0) = Some g'
             /\ on_circle 16 (position g').
Proof.
  apply (orbit_position_on_circle earth_props earth_wide
           1 None (Some group0) group0).
  reflexivity.
Defined.

(** C3.  With radius 16 and angular speed 0.6 the orbit position is
    [(16, 0, 0)] at elapsed time 0 and [(-16, 0, 0)] at elapsed time
    [PI / 0.6], in both planet components. *)
Theorem orbit_position_scenario :
  Planet.orbitPosition 16 0.6 0 = mkVector3 16 0 0
  /\ Planet.orbitPosition 16 0.6 (PI / 0.6) = mkVector3 (-16) 0 0
  /\ SolarSystem.orbitPosition scenario_planet 0 = mkVector3 16 0 0
  /\ SolarSystem.orbitPosition scenario_planet (PI / 0.6)
     = mkVector3 (-16) 0 0.
Proof.
  assert (H0 : 0 * 0.6 = 0) by lra.
  assert (HP : PI / 0.6 * 0.6 = PI) by lra.
  unfold scenario_planet, Planet.orbitPosition, Planet.angle,
    SolarSystem.orbitPosition,
    SolarSystem.angle. cbn [SolarSystem.distance SolarSystem.orbitSpeed].
  rewrite H0, HP, cos_0, sin_0, cos_PI, sin_PI.
  repeat split; apply vector3_eq; lra.
Qed.

Lemma angle_increasing (s t1 t2 : R) :
  0 < s -> t1 < t2 -> Planet.angle s t1 < Planet.angle s t2.
Proof. unfold Planet.angle. intros Hs Ht. nra. Qed.

Lemma planets_speed_positive (width : R) (q : SolarSystem.PlanetData) :
  In q (SolarSystem.planets width) -> 0 < SolarSystem.orbitSpeed q.
Proof.
  unfold SolarSystem.planets. cbn [In].
  intros H. repeat (destruct H as [<- | H]; [cbn; lra|]). destruct H.
Qed.

Lemma circle_wraps (r a : R) :
  mkVector3 (r * cos (a + 2 * PI)) 0 (r * sin (a + 2 * PI))
  = mkVector3 (r * cos a) 0 (r * sin a).
Proof.
  rewrite cos_plus, sin_plus, cos_2PI, sin_2PI.
  apply vector3_eq; lra.
Qed.

(** C7, as the code has it.  For a positive angular speed [s] and two
    times [t1 < t2], the angle [t * s] both planet components compute is
    strictly larger at [t2]; the angle is never reduced, the position alone
    wraps: it repeats after the time that adds [2 * PI] to the angle.
    Every speed the repository gives a planet (a row of the planets table,
    the default of the [orbitSpeed] prop) is positive. *)
Theorem orbit_angle_strictly_increasing
    (s t1 t2 : R) (p : Planet.PlanetProps) (q : SolarSystem.PlanetData)
    (g : Group) :
  0 < s -> t1 < t2 ->
  Planet.orbitSpeed_or_default p = s -> SolarSystem.orbitSpeed q = s ->
  Planet.angle s t1 < Planet.angle s t2
  /\ SolarSystem.angle q t1 < SolarSystem.angle q t2
  /\ Planet.angle s (t1 + 2 * PI / s) = Planet.angle s t1 + 2 * PI
  /\ position (Planet.update p (t1 + 2 * PI / s) g)
     = position (Planet.update p t1 g)
  /\ SolarSystem.orbitPosition q (t1 + 2 * PI / s)
     = SolarSystem.orbitPosition q t1
  /\ (forall width q', In q' (SolarSystem.planets width) ->
                       0 < SolarSystem.orbitSpeed q')
  /\ (forall p', Planet.orbitSpeed p' = None ->
                 0 < Planet.orbitSpeed_or_default p').
Proof.
  intros Hs Ht Hp Hq.
  assert (Hw : Planet.angle s (t1 + 2 * PI / s) = Planet.angle s t1 + 2 * PI)
    by (unfold Planet.angle; field; lra).
  split; [apply (angle_increasing _ _ _ Hs Ht)|].
  split; [unfold SolarSystem.angle; rewrite Hq;
          apply (angle_increasing _ _ _ Hs Ht)|].
  split; [exact Hw|]. split; [|split; [|split]].
  - cbn [Planet.update position]. rewrite Hp.
    unfold Planet.orbitPosition. cbv zeta. rewrite Hw. apply circle_wraps.
  - unfold SolarSystem.orbitPosition, SolarSystem.angle. cbv zeta.
    rewrite Hq. fold (Planet.angle s (t1 + 2 * PI / s)).
    fold (Planet.angle s t1). rewrite Hw. apply circle_wraps.
  - apply planets_speed_positive.
  - intros p' Hp'. unfold Planet.orbitSpeed_or_default. rewrite Hp'.
    cbn. lra.
Qed.

Lemma orbit_angle_strictly_increasing_witness :
  SolarSystem.angle earth_wide 1 < SolarSystem.angle earth_wide 2.
Proof.
  refine (proj1 (proj2 (orbit_angle_strictly_increasing 0.6 1 2
                          fast_props earth_wide group0 _ _ _ _))).
  - lra.
  - lra.
  - reflexivity.
  - reflexivity.
Defined.

(** C7, the sentence as written fails for a speed that is not positive,
    which the [orbitSpeed] prop admits: a planet given speed 0 has the same
    angle at times 1 and 2, and one given speed [-0.2] has the smaller
    angle at the later time. *)
Lemma orbit_angle_not_increasing_without_positive_speed :
  ~ (Planet.angle (Planet.orbitSpeed_or_default still_props) 1
     < Planet.angle (Planet.orbitSpeed_or_default still_props) 2)
  /\ position (Planet.update still_props 2 group0)
     = position (Planet.update still_props 1 group0)
  /\ Planet.angle (Planet.orbitSpeed_or_default retrograde_props) 2
     < Planet.angle (Planet.orbitSpeed_or_default retrograde_props) 1.
Proof.
  unfold still_props, retrograde_props. cbn.
  unfold Planet.orbitPosition, Planet.angle. cbv zeta.
  split; [lra|]. split; [|lra].
  replace (2 * 0) with 0 by lra. replace (1 * 0) with 0 by lra.
  reflexivity.
Qed.

(** * Smoothing *)

Lemma between_lerp (a b alpha : R) :
  0 <= alpha <= 1 -> between a b (a + (b - a) * alpha).
Proof.
  intros [H0 H1]. unfold between, Rmin, Rmax.
  destruct (Rle_dec a b); split; nra.
Qed.

Lemma blend_range (k delta : R) :
  0 <= k -> 0 <= delta -> 0 <= CameraController.blend k delta < 1.
Proof.
  intros Hk Hd. unfold CameraController.blend.
  assert (Hy : 0 <= delta * k) by nra.
  replace (- delta * k) with (- (delta * k)) by lra.
  pose proof (exp_ineq1_le (delta * k)) as Hge.
  pose proof (exp_pos (delta * k)) as Hpos.
  pose proof (exp_pos (- (delta * k))) as Hneg.
  assert (Hinv : exp (- (delta * k)) * exp (delta * k) = 1).
  { rewrite <- exp_plus.
    replace (- (delta * k) + delta * k) with 0 by lra. apply exp_0. }
  split; nra.
Qed.

(** C6.  [lerp v d alpha] is the combination [(1 - alpha) * v + alpha * d];
    for [0 <= alpha <= 1] both weights are non-negative and every component
    of the result lies between the components of [v] and [d]; the blend
    factor [1 - exp (- delta * k)] is such an [alpha] for [k, delta >= 0]. *)
Theorem lerp_convex (v d : Vector3) (alpha k delta : R) :
  0 <= alpha <= 1 -> 0 <= k -> 0 <= delta ->
  (x (lerp v d alpha) = (1 - alpha) * x v + alpha * x d
   /\ y (lerp v d alpha) = (1 - alpha) * y v + alpha * y d
   /\ z (lerp v d alpha) = (1 - alpha) * z v + alpha * z d)
  /\ 0 <= 1 - alpha
  /\ between3 v d (lerp v d alpha)
  /\ 0 <= CameraController.blend k delta <= 1
  /\ between3 v d (lerp v d (CameraController.blend k delta)).
Proof.
  intros Ha Hk Hd.
  pose proof (blend_range k delta Hk Hd) as Hb.
  assert (Hb' : 0 <= CameraController.blend k delta <= 1) by lra.
  repeat split; cbn; try lra;
    try (apply (between_lerp _ _ _ Ha)); apply (between_lerp _ _ _ Hb').
Qed.

Lemma lerp_convex_witness :
  between3 zero (mkVector3 0 40 120) (lerp zero (mkVector3 0 40 120) 0.05).
Proof.
  refine (proj1 (proj2 (proj2
            (lerp_convex zero (mkVector3 0 40 120) 0.05 3 (1 / 60) _ _ _))));
    lra.
Defined.

(** * The focus branch of the smoothing controller *)

Lemma blend_compose (k a b : R) :
  1 - (1 - CameraController.blend k a) * (1 - CameraController.blend k b)
  = CameraController.blend k (a + b).
Proof.
  unfold CameraController.blend.
  replace (- (a + b) * k) with (- a * k + - b * k) by lra.
  rewrite exp_plus. lra.
Qed.

Lemma lerp_compose (v d : Vector3) (k a b : R) :
  lerp (lerp v d (CameraController.blend k a)) d (CameraController.blend k b)
  = lerp v d (CameraController.blend k (a + b)).
Proof.
  rewrite <- blend_compose. unfold lerp. cbn. apply vector3_eq; lra.
Qed.

Lemma desired_radius (sp : Vector3) (time : R) :
  let D := CameraController.desired sp time in
  sqrt ((x D - x sp) * (x D - x sp) + (z D - z sp) * (z D - z sp))
  = 10 + 1.2 * sin (0.5 * time).
Proof.
  cbn. replace (0.5 * time) with (time * 0.5) by lra.
  set (r := 10 + sin (time * 0.5) * 1.2).
  pose proof (SIN_bound (time * 0.5)) as Hb.
  assert (Hr : 0 <= r) by (unfold r; lra).
  pose proof (sin2_cos2 (time * 0.2)) as Hsc. unfold Rsqr in Hsc.
  replace (10 + 1.2 * sin (time * 0.5)) with r by (unfold r; lra).
  transitivity (sqrt (r * r)); [|apply (sqrt_square r Hr)].
  f_equal. nra.
Qed.

(** C10.  On a focus frame the desired camera position, towards which the
    smoothed camera is blended, is 3 above the smoothed target, and its
    horizontal distance from the smoothed target is
    [10 + 1.2 * sin (0.5 * time)], a value of the interval [8.8, 11.2]. *)
Theorem focus_desired_offset
    (getWorldDirection : Camera -> Vector3) (tgt : Vector3)
    (time delta : R) (s : CameraController.State) :
  let s' := CameraController.useFrame getWorldDirection
              (CameraController.mkFrame true (Some tgt) time delta) s in
  let sp := CameraController.smoothedPlanet s' in
  let D := CameraController.desired sp time in
  CameraController.smoothedCamera s'
  = lerp (CameraController.smoothedCamera s) D (CameraController.blend 3 delta)
  /\ y D - y sp = 3
  /\ sqrt ((x D - x sp) * (x D - x sp) + (z D - z sp) * (z D - z sp))
     = 10 + 1.2 * sin (0.5 * time)
  /\ 8.8 <= 10 + 1.2 * sin (0.5 * time) <= 11.2.
Proof.
  intros s' sp D. split; [reflexivity|]. split; [cbn; lra|].
  split; [apply desired_radius|].
  pose proof (SIN_bound (0.5 * time)). lra.
Qed.

(** C1, as the code has it.  On a focus frame of the smoothing controller
    with time step [delta >= 0], the smoothed target and the smoothed
    camera both become [lerp current desired (1 - exp (- delta * k))], with
    [k = 4] and [k = 3]; the factors lie in [0, 1) and depend on [delta]
    alone, and against one target a frame of [delta] followed by a frame of
    [delta2] leaves the smoothed target where a single frame of
    [delta + delta2] does.  The two orbiting controllers keep no smoothed
    vectors: their focus branch blends the camera towards the planet plus
    [(0, 5, 15)] by the constant 0.08. *)
Theorem focus_frame_exponential_smoothing
    (getWorldDirection : Camera -> Vector3) (tgt : Vector3)
    (time time2 delta delta2 : R) (s : CameraController.State)
    (targetPlanet planetPos : Vector3) (n : string) (g : Group)
    (planetRefs : gmap string (option Group))
    (mouse1 : OrbitCameraController.Vector2) (elapsed : R)
    (s1 : OrbitCameraController.State)
    (mouse2 : InlineSolarSystem.Vector2) (now : R)
    (s2 : InlineSolarSystem.State) :
  0 <= delta -> 0 <= delta2 -> n <> "" -> planetRefs !! n = Some (Some g) ->
  let s' := CameraController.useFrame getWorldDirection
              (CameraController.mkFrame true (Some tgt) time delta) s in
  let s'' := CameraController.useFrame getWorldDirection
               (CameraController.mkFrame true (Some tgt) time2 delta2) s' in
  CameraController.smoothedPlanet s'
  = lerp (CameraController.smoothedPlanet s) tgt (1 - exp (- delta * 4))
  /\ CameraController.smoothedCamera s'
     = lerp (CameraController.smoothedCamera s)
         (CameraController.desired (CameraController.smoothedPlanet s') time)
         (1 - exp (- delta * 3))
  /\ CameraController.camera s'
     = mkCamera (CameraController.smoothedCamera s')
         (CameraController.smoothedPlanet s')
  /\ 0 <= 1 - exp (- delta * 4) < 1
  /\ 0 <= 1 - exp (- delta * 3) < 1
  /\ CameraController.smoothedPlanet s''
     = lerp (CameraController.smoothedPlanet s) tgt
         (1 - exp (- (delta + delta2) * 4))
  /\ camPosition (OrbitCameraController.camera
       (OrbitCameraController.useFrame (Some targetPlanet)
          (Some (Some planetPos)) mouse1 elapsed s1))
     = lerp (camPosition (OrbitCameraController.camera s1))
         (add planetPos (mkVector3 0 5 15)) 0.08
  /\ camPosition (InlineSolarSystem.camera
       (InlineSolarSystem.CameraController_useFrame (Some n) planetRefs
          mouse2 now s2))
     = lerp (camPosition (InlineSolarSystem.camera s2))
         (add (position g) (mkVector3 0 5 15)) 0.08.
Proof.
  intros Hd Hd2 Hn Href s' s''.
  repeat split; try reflexivity.
  - apply (blend_range 4 delta); lra.
  - apply (blend_range 4 delta); lra.
  - apply (blend_range 3 delta); lra.
  - apply (blend_range 3 delta); lra.
  - apply (lerp_compose (CameraController.smoothedPlanet s) tgt 4 delta delta2).
  - unfold InlineSolarSystem.CameraController_useFrame, truthy.
    destruct (decide (n = "")) as [E|_]; [contradiction|].
    rewrite Href. reflexivity.
Qed.

Lemma focus_frame_exponential_smoothing_witness :
  CameraController.smoothedPlanet
    (CameraController.useFrame forward
       (CameraController.mkFrame true (Some (mkVector3 18 0 0)) 2 (1 / 60))
       following)
  = lerp (mkVector3 10 0 0) (mkVector3 18 0 0) (1 - exp (- (1 / 60) * 4)).
Proof.
  refine (proj1 (focus_frame_exponential_smoothing forward (mkVector3 18 0 0)
            2 3 (1 / 60) (1 / 60) following zero zero "Earth" group0
            {["Earth" := Some group0]}
            (OrbitCameraController.mkVector2 0 0) 0
            (OrbitCameraController.init camera0)
            (InlineSolarSystem.mkVector2 0 0) 0
            (InlineSolarSystem.init camera0) _ _ _ _)).
  - lra.
  - lra.
  - discriminate.
  - reflexivity.
Defined.

(** C1, the sentence as written fails on the orbiting controller: with the
    camera and the planet at the origin and a time step of a sixtieth of a
    second, its focus frame does not leave the camera where exponential
    smoothing with [k = 3] (or [k = 4]) towards the same point would. *)
Lemma orbit_controller_focus_not_exponential :
  let after :=
    camPosition (OrbitCameraController.camera
      (OrbitCameraController.useFrame (Some zero) (Some (Some zero))
         (OrbitCameraController.mkVector2 0 0) 0
         (OrbitCameraController.init camera0))) in
  let towards := add zero (mkVector3 0 5 15) in
  after <> lerp (camPosition camera0) towards
             (CameraController.blend 3 (1 / 60))
  /\ after <> lerp (camPosition camera0) towards
                (CameraController.blend 4 (1 / 60)).
Proof.
  cbv zeta.
  assert (H3 : CameraController.blend 3 (1 / 60) <= 0.05).
  { unfold CameraController.blend.
    pose proof (exp_ineq1_le (- (1 / 60) * 3)). lra. }
  assert (H4 : CameraController.blend 4 (1 / 60) <= 0.07).
  { unfold CameraController.blend.
    pose proof (exp_ineq1_le (- (1 / 60) * 4)). lra. }
  split; intros E; apply (f_equal y) in E; cbn in E;
    unfold CameraController.blend in *; lra.
Qed.

(** * The default-view branch of the smoothing controller *)

Lemma useFrame_unfocused (getWorldDirection : Camera -> Vector3)
    (f : CameraController.Frame) (s : CameraController.State) :
  CameraController.focused f = false ->
  CameraController.useFrame getWorldDirection f s = CameraController.relax s.
Proof.
  unfold CameraController.focused, CameraController.useFrame.
  destruct (CameraController.isFocusing f), (CameraController.target f);
    intros H; try discriminate; reflexivity.
Qed.

Lemma run_unfocused (getWorldDirection : Camera -> Vector3)
    (fs : list CameraController.Frame) (s : CameraController.State) :
  Forall (fun f => CameraController.focused f = false) fs ->
  CameraController.run getWorldDirection fs s
  = Nat.iter (length fs) CameraController.relax s.
Proof.
  intros H. revert s. induction H as [|f fs Hf _ IH]; intros s.
  - reflexivity.
  - cbn [length]. rewrite Nat.iter_succ_r, <- IH.
    unfold CameraController.run. cbn [fold_left].
    rewrite (useFrame_unfocused _ f s Hf). reflexivity.
Qed.

(** After [n] frames of the default view every component is the default
    plus the initial offset scaled by [0.95 ^ n]. *)
Lemma relax_iter (n : nat) (s : CameraController.State) :
  let s' := Nat.iter n CameraController.relax s in
  let c := CameraController.smoothedCamera s in
  let p := CameraController.smoothedPlanet s in
  CameraController.smoothedCamera s'
  = mkVector3 (0 + (x c - 0) * 0.95 ^ n) (40 + (y c - 40) * 0.95 ^ n)
      (120 + (z c - 120) * 0.95 ^ n)
  /\ CameraController.smoothedPlanet s'
     = mkVector3 (0 + (x p - 0) * 0.95 ^ n) (0 + (y p - 0) * 0.95 ^ n)
         (0 + (z p - 0) * 0.95 ^ n).
Proof.
  induction n as [|n [IHc IHp]]; cbv zeta.
  - destruct s as [[] [] ? ? ?]. cbn. split; apply vector3_eq; lra.
  - rewrite Nat.iter_succ. cbv zeta in IHc, IHp.
    set (t := Nat.iter n CameraController.relax s) in *.
    unfold CameraController.relax, CameraController.defaultPos.
    cbn [CameraController.smoothedCamera CameraController.smoothedPlanet].
    rewrite IHc, IHp. unfold lerp. cbn.
    split; apply vector3_eq; lra.
Qed.

Lemma relax_camera (s : CameraController.State) :
  CameraController.camera (CameraController.relax s)
  = mkCamera (CameraController.smoothedCamera (CameraController.relax s))
      (CameraController.smoothedPlanet (CameraController.relax s)).
Proof. reflexivity. Qed.

Lemma decay_small (d c0 p M eps : R) :
  0 < M -> 0 < eps -> Rabs (c0 - d) <= M -> Rabs p < eps / M ->
  Rabs (d + (c0 - d) * p - d) < eps.
Proof.
  intros HM He Hc Hp.
  replace (d + (c0 - d) * p - d) with ((c0 - d) * p) by lra.
  rewrite Rabs_mult.
  pose proof (Rabs_pos (c0 - d)) as H1. pose proof (Rabs_pos p) as H2.
  assert (HMe : M * (eps / M) = eps) by (field; lra).
  nra.
Qed.

(** C5.  From whatever state the focus phase left, frames of the default
    view move the smoothed camera and the smoothed target 5% of the way to
    [(0, 40, 120)] and to the origin each, and for every tolerance there is
    a number of frames after which both, and the camera that copies them,
    stay within it of those constants; a session in which nothing was ever
    selected sits at the same constants from its first frame. *)
Theorem deselect_relaxes_to_default
    (getWorldDirection : Camera -> Vector3) (s : CameraController.State)
    (cam : Camera) (eps : R) :
  0 < eps ->
  (exists N : nat,
     forall fs : list CameraController.Frame,
       Forall (fun f => CameraController.focused f = false) fs ->
       (N <= length fs)%nat ->
       let s' := CameraController.run getWorldDirection fs s in
       within eps (CameraController.smoothedCamera s')
         CameraController.defaultPos
       /\ within eps (CameraController.smoothedPlanet s') (mkVector3 0 0 0)
       /\ within eps (camPosition (CameraController.camera s'))
            CameraController.defaultPos
       /\ within eps (camLookAt (CameraController.camera s'))
            (mkVector3 0 0 0))
  /\ (forall fs : list CameraController.Frame,
        Forall (fun f => CameraController.focused f = false) fs ->
        let s0 := CameraController.run getWorldDirection fs
                    (CameraController.init cam) in
        CameraController.smoothedCamera s0 = CameraController.defaultPos
        /\ CameraController.smoothedPlanet s0 = mkVector3 0 0 0)
  /\ (forall f : CameraController.Frame,
        CameraController.focused f = false ->
        let s1 := CameraController.useFrame getWorldDirection f s in
        CameraController.smoothedCamera s1
        = lerp (CameraController.smoothedCamera s)
            CameraController.defaultPos 0.05
        /\ CameraController.smoothedPlanet s1
           = lerp (CameraController.smoothedPlanet s) (mkVector3 0 0 0) 0.05).
Proof.
  intros He. split; [|split].
  - set (c := CameraController.smoothedCamera s).
    set (p := CameraController.smoothedPlanet s).
    set (M := 1 + Rabs (x c - 0) + Rabs (y c - 40) + Rabs (z c - 120)
              + Rabs (x p - 0) + Rabs (y p - 0) + Rabs (z p - 0)).
    assert (HM : 0 < M).
    { unfold M.
      pose proof (Rabs_pos (x c - 0)). pose proof (Rabs_pos (y c - 40)).
      pose proof (Rabs_pos (z c - 120)). pose proof (Rabs_pos (x p - 0)).
      pose proof (Rabs_pos (y p - 0)). pose proof (Rabs_pos (z p - 0)). lra. }
    assert (Hq : Rabs 0.95 < 1) by (rewrite Rabs_pos_eq; lra).
    assert (HeM : 0 < eps / M) by (apply Rdiv_lt_0_compat; lra).
    destruct (pow_lt_1_zero 0.95 Hq (eps / M) HeM) as [N HN].
    exists (S N). intros fs Hfs Hlen s'.
    assert (Hs' : s' = Nat.iter (length fs) CameraController.relax s)
      by (apply run_unfocused; exact Hfs).
    destruct (relax_iter (length fs) s) as [Hc Hp].
    cbv zeta in Hc, Hp. fold c in Hc. fold p in Hp.
    assert (Hpow : Rabs (0.95 ^ length fs) < eps / M) by (apply HN; lia).
    assert (Hcam : within eps (CameraController.smoothedCamera s')
                     CameraController.defaultPos).
    { rewrite Hs', Hc. unfold within, CameraController.defaultPos. cbn.
      pose proof (Rabs_pos (x c - 0)). pose proof (Rabs_pos (y c - 40)).
      pose proof (Rabs_pos (z c - 120)). pose proof (Rabs_pos (x p - 0)).
      pose proof (Rabs_pos (y p - 0)). pose proof (Rabs_pos (z p - 0)).
      repeat split; apply (decay_small _ _ _ M); try assumption;
        unfold M; lra. }
    assert (Hpla : within eps (CameraController.smoothedPlanet s')
                     (mkVector3 0 0 0)).
    { rewrite Hs', Hp. unfold within. cbn.
      pose proof (Rabs_pos (x c - 0)). pose proof (Rabs_pos (y c - 40)).
      pose proof (Rabs_pos (z c - 120)). pose proof (Rabs_pos (x p - 0)).
      pose proof (Rabs_pos (y p - 0)). pose proof (Rabs_pos (z p - 0)).
      repeat split; apply (decay_small _ _ _ M); try assumption;
        unfold M; lra. }
    assert (Hcopy : CameraController.camera s'
                    = mkCamera (CameraController.smoothedCamera s')
                        (CameraController.smoothedPlanet s')).
    { rewrite Hs'. destruct (length fs) as [|k]; [lia|].
      rewrite Nat.iter_succ. apply relax_camera. }
    rewrite Hcopy. cbn [camPosition camLookAt]. tauto.
  - intros fs Hfs s0.
    assert (Hs0 : s0 = Nat.iter (length fs) CameraController.relax
                         (CameraController.init cam))
      by (apply run_unfocused; exact Hfs).
    destruct (relax_iter (length fs) (CameraController.init cam)) as [Hc Hp].
    cbv zeta in Hc, Hp. rewrite Hs0, Hc, Hp.
    unfold CameraController.defaultPos. cbn.
    split; apply vector3_eq; lra.
  - intros f Hf s1. unfold s1. rewrite (useFrame_unfocused _ f s Hf).
    split; reflexivity.
Qed.

Lemma deselect_relaxes_to_default_witness :
  exists N : nat,
    forall fs : list CameraController.Frame,
      Forall (fun f => CameraController.focused f = false) fs ->
      (N <= length fs)%nat ->
      let s' := CameraController.run forward fs following in
      within 1 (CameraController.smoothedCamera s')
        CameraController.defaultPos
      /\ within 1 (CameraController.smoothedPlanet s') (mkVector3 0 0 0)
      /\ within 1 (camPosition (CameraController.camera s'))
           CameraController.defaultPos
      /\ within 1 (camLookAt (CameraController.camera s'))
           (mkVector3 0 0 0).
Proof.
  refine (proj1 (deselect_relaxes_to_default forward following camera0 1 _)).
  lra.
Defined.

(** * Focus without a resolvable target *)

Lemma getPlanetPosition_missing_ref (n : string)
    (planetRefs : gmap string (option Group)) (smoothedTarget : Vector3) :
  n <> "" ->
  planetRefs !! n = None \/ planetRefs !! n = Some None ->
  SolarSystem.getPlanetPosition (Some n) planetRefs smoothedTarget
  = (Some smoothedTarget, smoothedTarget).
Proof.
  intros Hn Href. unfold SolarSystem.getPlanetPosition, truthy.
  destruct (decide (n = "")) as [E|_]; [contradiction|].
  destruct Href as [-> | ->]; reflexivity.
Qed.

(** C4, as the code has it.  A frame on which focus is on and the getter
    returned [null] takes the default-view branch: the callback is total,
    nothing is raised, and the smoothed camera and target each move 5% of
    the way to [(0, 40, 120)] and to the origin, every component staying
    between its old value and the default.  When the reference of the
    selected planet is missing, the getter returns its last smoothed target
    unchanged, and the controller goes on following that held value in its
    focus branch. *)
Theorem unresolved_target_no_error
    (getWorldDirection : Camera -> Vector3) (time delta : R)
    (s : CameraController.State) (n : string)
    (planetRefs : gmap string (option Group)) (smoothedTarget : Vector3)
    (hint : bool) :
  n <> "" ->
  planetRefs !! n = None \/ planetRefs !! n = Some None ->
  0 <= delta ->
  let s' := CameraController.useFrame getWorldDirection
              (CameraController.mkFrame true None time delta) s in
  let held := SolarSystem.cameraFrame getWorldDirection
                (SolarSystem.mkUI (Some n) true hint) planetRefs time delta
                (smoothedTarget, s) in
  CameraController.smoothedCamera s'
  = lerp (CameraController.smoothedCamera s) CameraController.defaultPos 0.05
  /\ CameraController.smoothedPlanet s'
     = lerp (CameraController.smoothedPlanet s) (mkVector3 0 0 0) 0.05
  /\ between3 (CameraController.smoothedCamera s) CameraController.defaultPos
       (CameraController.smoothedCamera s')
  /\ between3 (CameraController.smoothedPlanet s) (mkVector3 0 0 0)
       (CameraController.smoothedPlanet s')
  /\ CameraController.camera s'
     = mkCamera (CameraController.smoothedCamera s')
         (CameraController.smoothedPlanet s')
  /\ SolarSystem.getPlanetPosition None planetRefs smoothedTarget
     = (None, smoothedTarget)
  /\ SolarSystem.getPlanetPosition (Some n) planetRefs smoothedTarget
     = (Some smoothedTarget, smoothedTarget)
  /\ held = (smoothedTarget,
             CameraController.focus getWorldDirection smoothedTarget
               time delta s)
  /\ between3 (CameraController.smoothedPlanet s) smoothedTarget
       (CameraController.smoothedPlanet (snd held)).
Proof.
  intros Hn Href Hd s' held.
  assert (H5 : 0 <= 0.05 <= 1) by lra.
  assert (Hheld : held = (smoothedTarget,
                          CameraController.focus getWorldDirection
                            smoothedTarget time delta s)).
  { unfold held, SolarSystem.cameraFrame.
    cbn [SolarSystem.selected SolarSystem.isFocusing fst snd].
    rewrite (getPlanetPosition_missing_ref n planetRefs smoothedTarget Hn Href).
    reflexivity. }
  split; [reflexivity|]. split; [reflexivity|].
  split; [repeat split; apply (between_lerp _ _ _ H5)|].
  split; [repeat split; apply (between_lerp _ _ _ H5)|].
  split; [reflexivity|]. split; [reflexivity|].
  split; [apply getPlanetPosition_missing_ref; assumption|].
  split; [exact Hheld|].
  rewrite Hheld. cbn [snd].
  assert (Hb : 0 <= CameraController.blend 4 delta <= 1)
    by (pose proof (blend_range 4 delta); lra).
  repeat split; apply (between_lerp _ _ _ Hb).
Qed.

Lemma unresolved_target_no_error_witness :
  SolarSystem.getPlanetPosition (Some "Earth") ∅ (mkVector3 18 0 0)
  = (Some (mkVector3 18 0 0), mkVector3 18 0 0).
Proof.
  refine (proj1 (proj2 (proj2 (proj2 (proj2 (proj2 (proj2
            (unresolved_target_no_error forward 2 (1 / 60) following "Earth"
               ∅ (mkVector3 18 0 0) true _ _ _)))))))).
  - discriminate.
  - left. reflexivity.
  - lra.
Defined.

(** C4, the sentence as written fails: with focus on and no target, the
    smoothed camera of a controller in mid-follow is not held; the frame
    moves it from [(10, 3, 10)] towards the default position. *)
Lemma focus_without_target_not_held :
  let s' := CameraController.useFrame forward
              (CameraController.mkFrame true None 2 (1 / 60)) following in
  CameraController.smoothedCamera s'
  <> CameraController.smoothedCamera following
  /\ CameraController.smoothedPlanet s'
     <> CameraController.smoothedPlanet following.
Proof.
  cbv zeta. split; intros E; apply (f_equal x) in E; cbn in E; lra.
Qed.

(** * The free orbit of the orbiting controllers *)

Lemma orbit_point_bounds (a px py phase : R) :
  -1 <= px <= 1 -> -1 <= py <= 1 ->
  Rabs (60 * cos a + px * 5 - 60 * cos a) <= 5
  /\ Rabs (60 * sin a + py * 5 - 60 * sin a) <= 5
  /\ 15 <= 20 + sin phase * 5 <= 25.
Proof.
  intros Hx Hy. pose proof (SIN_bound phase).
  repeat split; try lra; apply Rabs_le; lra.
Qed.

(** C8, as the code has it.  On a free frame of either orbiting controller
    the angle grows by 0.001 and the camera, looking at the origin, is
    blended 5% of the way to the point
    [(60 * cos angle + 5 * mouse.x, 20 + 5 * sin phase,
      60 * sin angle + 5 * mouse.y)],
    where [phase] is [0.2 * elapsed], respectively [0.002 * now]: without
    the pointer term that point is on the circle of radius 60; with pointer
    coordinates in [-1, 1] each horizontal coordinate is within 5 of it; the
    height of the point swings within [15, 25]. *)
Theorem free_orbit_frame
    (px py elapsed now : R)
    (targetPlanet : option Vector3)
    (getPlanetPosition : option (option Vector3))
    (targetPlanetName : option string)
    (planetRefs : gmap string (option Group))
    (s1 : OrbitCameraController.State) (s2 : InlineSolarSystem.State) :
  targetPlanet = None \/ getPlanetPosition = None ->
  truthy targetPlanetName = false ->
  -1 <= px <= 1 -> -1 <= py <= 1 ->
  let m1 := OrbitCameraController.mkVector2 px py in
  let m2 := InlineSolarSystem.mkVector2 px py in
  let s1' := OrbitCameraController.useFrame targetPlanet getPlanetPosition m1
               elapsed s1 in
  let s2' := InlineSolarSystem.CameraController_useFrame targetPlanetName
               planetRefs m2 now s2 in
  let a1 := OrbitCameraController.angle s1' in
  let a2 := InlineSolarSystem.angle s2' in
  let P1 := OrbitCameraController.orbitPoint a1 m1 elapsed in
  let P2 := InlineSolarSystem.orbitPoint a2 m2 now in
  (a1 = OrbitCameraController.angle s1 + 0.001
   /\ OrbitCameraController.camera s1'
      = mkCamera (lerp (camPosition (OrbitCameraController.camera s1)) P1 0.05)
          (mkVector3 0 0 0)
   /\ P1 = mkVector3 (60 * cos a1 + px * 5) (20 + sin (elapsed * 0.2) * 5)
             (60 * sin a1 + py * 5)
   /\ on_circle 60 (mkVector3 (x P1 - px * 5) 0 (z P1 - py * 5))
   /\ Rabs (x P1 - 60 * cos a1) <= 5 /\ Rabs (z P1 - 60 * sin a1) <= 5
   /\ 15 <= y P1 <= 25)
  /\ (a2 = InlineSolarSystem.angle s2 + 0.001
      /\ InlineSolarSystem.camera s2'
         = mkCamera (lerp (camPosition (InlineSolarSystem.camera s2)) P2 0.05)
             (mkVector3 0 0 0)
      /\ P2 = mkVector3 (60 * cos a2 + px * 5) (20 + sin (now * 0.002) * 5)
                (60 * sin a2 + py * 5)
      /\ on_circle 60 (mkVector3 (x P2 - px * 5) 0 (z P2 - py * 5))
      /\ Rabs (x P2 - 60 * cos a2) <= 5 /\ Rabs (z P2 - 60 * sin a2) <= 5
      /\ 15 <= y P2 <= 25).
Proof.
  intros Hfree Hname Hx Hy m1 m2 s1' s2' a1 a2 P1 P2.
  assert (H1 : s1' = OrbitCameraController.freeOrbit m1 elapsed s1).
  { unfold s1', OrbitCameraController.useFrame.
    destruct Hfree as [-> | ->]; [|destruct targetPlanet]; reflexivity. }
  assert (H2 : s2' = InlineSolarSystem.freeOrbit m2 now s2).
  { unfold s2', InlineSolarSystem.CameraController_useFrame.
    destruct targetPlanetName as [n|]; [|reflexivity].
    rewrite Hname. reflexivity. }
  clearbody s1' s2'. subst s1' s2'.
  assert (Hc : forall a,
             on_circle 60 (mkVector3 (60 * cos a + px * 5 - px * 5) 0
                             (60 * sin a + py * 5 - py * 5))).
  { intros a. destruct (circle_point 60 a) as [Hs _].
    split; cbn in *; [nra|reflexivity]. }
  split.
  - destruct (orbit_point_bounds a1 px py (elapsed * 0.2) Hx Hy)
      as (Bx & Bz & By).
    repeat split; try reflexivity; try assumption; try apply Hc;
      cbn; unfold OrbitCameraController.rotationSpeed,
        OrbitCameraController.height; lra.
  - destruct (orbit_point_bounds a2 px py (now * 0.002) Hx Hy)
      as (Bx & Bz & By).
    repeat split; try reflexivity; try assumption; try apply Hc;
      cbn; unfold InlineSolarSystem.rotationSpeed,
        InlineSolarSystem.height; lra.
Qed.

Lemma free_orbit_frame_witness :
  OrbitCameraController.angle
    (OrbitCameraController.useFrame None None
       (OrbitCameraController.mkVector2 0.5 (-0.5)) 1 orbiting)
  = OrbitCameraController.angle orbiting + 0.001.
Proof.
  refine (proj1 (proj1 (free_orbit_frame 0.5 (-0.5) 1 1000 None None None ∅
                          orbiting (InlineSolarSystem.init camera0)
                          _ _ _ _))).
  - left. reflexivity.
  - reflexivity.
  - lra.
  - lra.
Defined.

(** C8, the sentence as written fails: the height is not fixed at 20.  At
    elapsed time [2.5 * PI] the point steered to is at height 25, and a
    camera that was at height 20 leaves it. *)
Lemma free_orbit_height_not_fixed :
  let m := OrbitCameraController.mkVector2 0 0 in
  let s' := OrbitCameraController.useFrame None None m (2.5 * PI) orbiting in
  y (OrbitCameraController.orbitPoint (OrbitCameraController.angle s') m
       (2.5 * PI)) = 25
  /\ y (camPosition (OrbitCameraController.camera orbiting))
     = OrbitCameraController.height
  /\ y (camPosition (OrbitCameraController.camera s'))
     <> OrbitCameraController.height.
Proof.
  cbv zeta. cbn. unfold OrbitCameraController.height.
  replace (2.5 * PI * 0.2) with (PI / 2) by lra. rewrite sin_PI2.
  repeat split; lra.
Qed.

(** * Info panels *)

Lemma reachable_selected (width : R) (u : SolarSystem.UI) :
  SolarSystem.reachable width u ->
  forall n, SolarSystem.selected u = Some n ->
            n <> "" /\ is_Some (SolarSystem.planetInfo !! n).
Proof.
  induction 1 as [|p u _ _ Hp|u _ _|u _ IH]; cbn; intros n E;
    try discriminate; [|apply IH; exact E].
  injection E as <-. unfold SolarSystem.planets in Hp. cbn [In] in Hp.
  repeat (destruct Hp as [<- | Hp];
          [split; [discriminate|vm_compute; eexists; reflexivity]|]).
  destruct Hp.
Qed.

Lemma reachable_target (t : option string) :
  InlineSolarSystem.reachable t ->
  forall n, t = Some n ->
            n <> "" /\ is_Some (InlineSolarSystem.planetInfo !! n).
Proof.
  induction 1 as [|p t _ _ Hp|t _ _]; unfold InlineSolarSystem.setTarget;
    intros n E; try discriminate.
  injection E as <-. unfold InlineSolarSystem.planets in Hp. cbn [In] in Hp.
  repeat (destruct Hp as [<- | Hp];
          [split; [discriminate|vm_compute; eexists; reflexivity]|]).
  destruct Hp.
Qed.

Lemma near_spec (vx : R) (p : OverlayInfo.PlanetRow) :
  OverlayInfo.near vx p = true <-> Rabs (OverlayInfo.distance p - vx) < 1.
Proof.
  unfold OverlayInfo.near.
  destruct (Rlt_dec (Rabs (OverlayInfo.distance p - vx)) 1); split;
    intros H; try reflexivity; try assumption; try discriminate;
    contradiction.
Qed.

Lemma overlay_found (vx : R) :
  OverlayInfo.render
    match find (OverlayInfo.near vx) OverlayInfo.planets with
    | Some planet => OverlayInfo.info planet
    | None => ""
    end
  = OverlayInfo.info <$> find (OverlayInfo.near vx) OverlayInfo.planets.
Proof.
  unfold OverlayInfo.planets. cbn [find].
  repeat (destruct (OverlayInfo.near vx _); [reflexivity|]). reflexivity.
Qed.

(** C9, as the code has it.  In the current scene and in the
    self-contained scene, for every selection the click and back handlers
    produce, the panel is rendered exactly when a name is selected and its
    text is the [planetInfo] entry of that name, which exists.  The
    position-keyed overlay renders nothing without a target and, with one,
    the info of the first planet whose distance is within 1 of the target's
    [x], or nothing if there is none. *)
Theorem info_panel_follows_selection
    (width : R) (u : SolarSystem.UI) (t : option string) (v : Vector3) :
  SolarSystem.reachable width u -> InlineSolarSystem.reachable t ->
  SolarSystem.renderInfoPanel u
  = (fun n => SolarSystem.mkPanel n (SolarSystem.planetInfo !! n))
      <$> SolarSystem.selected u
  /\ (forall n, SolarSystem.selected u = Some n ->
                is_Some (SolarSystem.planetInfo !! n))
  /\ InlineSolarSystem.InfoOverlay t
     = (fun n => InlineSolarSystem.planetInfo !! n) <$> t
  /\ (forall n, t = Some n -> is_Some (InlineSolarSystem.planetInfo !! n))
  /\ OverlayInfo.OverlayInfo None = None
  /\ OverlayInfo.OverlayInfo (Some v)
     = OverlayInfo.info
         <$> find (OverlayInfo.near (x v)) OverlayInfo.planets
  /\ (forall i, OverlayInfo.OverlayInfo (Some v) = Some i ->
        exists p, In p OverlayInfo.planets /\ OverlayInfo.info p = i
                  /\ Rabs (OverlayInfo.distance p - x v) < 1).
Proof.
  intros Hu Ht.
  pose proof (reachable_selected width u Hu) as Hsel.
  pose proof (reachable_target t Ht) as Htgt.
  assert (Hov : OverlayInfo.OverlayInfo (Some v)
                = OverlayInfo.info
                    <$> find (OverlayInfo.near (x v)) OverlayInfo.planets)
    by apply overlay_found.
  split; [|split; [|split; [|split; [|split; [|split]]]]].
  - unfold SolarSystem.renderInfoPanel.
    destruct (SolarSystem.selected u) as [n|] eqn:E; [|reflexivity].
    destruct (Hsel n eq_refl) as [Hn _]. unfold truthy.
    destruct (decide (n = "")); [contradiction|reflexivity].
  - intros n E. apply (Hsel n E).
  - unfold InlineSolarSystem.InfoOverlay.
    destruct t as [n|]; [|reflexivity].
    destruct (Htgt n eq_refl) as [Hn _]. unfold truthy.
    destruct (decide (n = "")); [contradiction|reflexivity].
  - intros n E. apply (Htgt n E).
  - reflexivity.
  - exact Hov.
  - intros i Hi. rewrite Hov in Hi.
    destruct (find (OverlayInfo.near (x v)) OverlayInfo.planets)
      as [p|] eqn:F; [|discriminate].
    injection Hi as <-. apply find_some in F. destruct F as [Hin Hnear].
    exists p. repeat split; [exact Hin|]. apply near_spec. exact Hnear.
Qed.

Lemma info_panel_follows_selection_witness :
  SolarSystem.renderInfoPanel
    (SolarSystem.handleClick "Earth" SolarSystem.initUI)
  = Some (SolarSystem.mkPanel "Earth"
            (Some "Our home world with oceans and life.")).
Proof.
  refine (proj1 (info_panel_follows_selection 1200
            (SolarSystem.handleClick "Earth" SolarSystem.initUI)
            None quarter_orbit _ _)).
  - apply (SolarSystem.reach_click 1200 earth_wide SolarSystem.initUI).
    + apply SolarSystem.reach_init.
    + unfold earth_wide, SolarSystem.planets, SolarSystem.scaleFactor.
      destruct (Rlt_dec 1200 480); [lra|].
      destruct (Rlt_dec 1200 1024); [lra|].
      cbn. tauto.
  - apply InlineSolarSystem.reach_init.
Defined.

(** C9, the sentence as written fails on the position-keyed overlay: a
    target is selected, a quarter of the way round the orbit of radius 16,
    and no panel is rendered. *)
Lemma overlay_selected_without_panel :
  OverlayInfo.OverlayInfo (Some quarter_orbit) = None.
Proof.
  unfold OverlayInfo.OverlayInfo, OverlayInfo.effect, OverlayInfo.planets,
    quarter_orbit. cbn [x find].
  assert (N : forall (n i : string) d, 1 <= d ->
                OverlayInfo.near 0 (OverlayInfo.mkRow n d i) = false).
  { intros n i d Hd. unfold OverlayInfo.near. cbn.
    destruct (Rlt_dec (Rabs (d - 0)) 1) as [H|_]; [|reflexivity].
    rewrite Rabs_pos_eq in H; lra. }
  rewrite !N by lra. reflexivity.
Qed.

(** * Further properties of the smoothing controller *)

Lemma lerp_zero (v d : Vector3) : lerp v d 0 = v.
Proof. destruct v. unfold lerp. cbn. apply vector3_eq; lra. Qed.

Lemma blend_zero (k : R) : CameraController.blend k 0 = 0.
Proof.
  unfold CameraController.blend.
  replace (- 0 * k) with 0 by lra. rewrite exp_0. lra.
Qed.

Lemma run_cons (getWorldDirection : Camera -> Vector3)
    (f : CameraController.Frame) (fs : list CameraController.Frame)
    (s : CameraController.State) :
  CameraController.run getWorldDirection (f :: fs) s
  = CameraController.run getWorldDirection fs
      (CameraController.useFrame getWorldDirection f s).
Proof. reflexivity. Qed.

Lemma run_snoc (getWorldDirection : Camera -> Vector3)
    (f : CameraController.Frame) (fs : list CameraController.Frame)
    (s : CameraController.State) :
  CameraController.run getWorldDirection (fs ++ [f]) s
  = CameraController.useFrame getWorldDirection f
      (CameraController.run getWorldDirection fs s).
Proof. unfold CameraController.run. rewrite fold_left_app. reflexivity. Qed.

Lemma focus_run_closed_form (getWorldDirection : Camera -> Vector3)
    (tgt : Vector3) (fs : list CameraController.Frame)
    (s : CameraController.State) :
  Forall (fun f => CameraController.isFocusing f = true
                   /\ CameraController.target f = Some tgt) fs ->
  CameraController.smoothedPlanet (CameraController.run getWorldDirection fs s)
  = lerp (CameraController.smoothedPlanet s) tgt
      (CameraController.blend 4 (totalDelta fs)).
Proof.
  intros H. revert s. induction H as [|f fs [Hf Ht] _ IH]; intros s.
  - cbn. rewrite blend_zero, lerp_zero. reflexivity.
  - rewrite run_cons, IH. cbn [totalDelta fold_right].
    unfold CameraController.useFrame. rewrite Hf, Ht.
    cbn [CameraController.focus CameraController.smoothedPlanet].
    apply lerp_compose.
Qed.

(** X1.  Against one target, the smoothed target after a run of focus
    frames is [lerp] of the start towards the target by
    [1 - exp (- 4 * T)], [T] the summed time steps: two runs that split the
    same time into different frames end at the same smoothed target. *)
Theorem focus_run_frame_rate_independent
    (getWorldDirection : Camera -> Vector3) (tgt : Vector3)
    (fs1 fs2 : list CameraController.Frame) (s : CameraController.State) :
  Forall (fun f => CameraController.isFocusing f = true
                   /\ CameraController.target f = Some tgt) fs1 ->
  Forall (fun f => CameraController.isFocusing f = true
                   /\ CameraController.target f = Some tgt) fs2 ->
  totalDelta fs1 = totalDelta fs2 ->
  CameraController.smoothedPlanet
    (CameraController.run getWorldDirection fs1 s)
  = lerp (CameraController.smoothedPlanet s) tgt
      (1 - exp (- totalDelta fs1 * 4))
  /\ CameraController.smoothedPlanet
       (CameraController.run getWorldDirection fs1 s)
     = CameraController.smoothedPlanet
         (CameraController.run getWorldDirection fs2 s).
Proof.
  intros H1 H2 E. split.
  - apply (focus_run_closed_form _ _ _ _ H1).
  - rewrite (focus_run_closed_form _ _ _ _ H1),
      (focus_run_closed_form _ _ _ _ H2), E. reflexivity.
Qed.

Lemma focus_run_frame_rate_independent_witness :
  CameraController.smoothedPlanet
    (CameraController.run forward
       [focus_frame_a; focus_frame_b; focus_frame_a] following)
  = CameraController.smoothedPlanet
      (CameraController.run forward [focus_frame_b; focus_frame_a;
                                     focus_frame_a] following).
Proof.
  refine (proj2 (focus_run_frame_rate_independent forward (mkVector3 18 0 0)
                   [focus_frame_a; focus_frame_b; focus_frame_a]
                   [focus_frame_b; focus_frame_a; focus_frame_a]
                   following _ _ _)).
  - repeat constructor.
  - repeat constructor.
  - cbn. lra.
Defined.

Lemma lerp_in_box (lo hi v d : Vector3) (alpha : R) :
  0 <= alpha <= 1 -> in_box lo hi v -> in_box lo hi d ->
  in_box lo hi (lerp v d alpha).
Proof.
  unfold in_box. intros Ha (Hx & Hy & Hz) (Dx & Dy & Dz). cbn.
  repeat split; nra.
Qed.

(** X2.  Over any run whose time steps are not negative, the smoothed
    target stays inside every axis-parallel box that holds the origin, the
    smoothed target it started from and each position the getter
    returned. *)
Theorem smoothed_target_stays_in_box
    (getWorldDirection : Camera -> Vector3) (lo hi : Vector3)
    (fs : list CameraController.Frame) (s : CameraController.State) :
  in_box lo hi (mkVector3 0 0 0) ->
  in_box lo hi (CameraController.smoothedPlanet s) ->
  Forall (fun f => 0 <= CameraController.delta f
                   /\ forall t, CameraController.target f = Some t ->
                                in_box lo hi t) fs ->
  in_box lo hi
    (CameraController.smoothedPlanet
       (CameraController.run getWorldDirection fs s)).
Proof.
  intros H0 Hs H. revert s Hs.
  induction H as [|f fs [Hd Ht] _ IH]; intros s Hs; [exact Hs|].
  rewrite run_cons. apply IH. unfold CameraController.useFrame.
  destruct (CameraController.isFocusing f);
    [destruct (CameraController.target f) as [t|] eqn:E|];
    cbn [CameraController.focus CameraController.relax
         CameraController.smoothedPlanet].
  - apply lerp_in_box; [|exact Hs|apply Ht; reflexivity].
    pose proof (blend_range 4 (CameraController.delta f)). lra.
  - apply lerp_in_box; [lra|exact Hs|exact H0].
  - apply lerp_in_box; [lra|exact Hs|exact H0].
Qed.

Lemma smoothed_target_stays_in_box_witness :
  in_box (mkVector3 (-20) 0 (-20)) (mkVector3 20 0 20)
    (CameraController.smoothedPlanet
       (CameraController.run forward
          [focus_frame_a; default_frame; focus_frame_b] following)).
Proof.
  apply (smoothed_target_stays_in_box forward
           (mkVector3 (-20) 0 (-20)) (mkVector3 20 0 20)
           [focus_frame_a; default_frame; focus_frame_b] following).
  - unfold in_box. cbn. lra.
  - unfold in_box. cbn. lra.
  - assert (Hin : in_box (mkVector3 (-20) 0 (-20)) (mkVector3 20 0 20)
                    (mkVector3 18 0 0)) by (unfold in_box; cbn; lra).
    unfold focus_frame_a, focus_frame_b, default_frame.
    repeat apply List.Forall_cons; try apply List.Forall_nil;
      (split; [cbn; lra|]); cbn; intros t E; try discriminate;
      injection E as <-; exact Hin.
Defined.

Lemma focus_run_bookkeeping (getWorldDirection : Camera -> Vector3)
    (fs : list CameraController.Frame) (s : CameraController.State) :
  Forall (fun f => CameraController.focused f = true) fs ->
  CameraController.isActive s = true ->
  CameraController.lastDir (CameraController.run getWorldDirection fs s)
  = CameraController.lastDir s
  /\ CameraController.isActive (CameraController.run getWorldDirection fs s)
     = true.
Proof.
  intros H. revert s. induction H as [|f fs Hf _ IH]; intros s Hs.
  - split; [reflexivity|exact Hs].
  - rewrite run_cons. unfold CameraController.focused in Hf.
    unfold CameraController.useFrame.
    destruct (CameraController.isFocusing f); [|discriminate].
    destruct (CameraController.target f) as [t|]; [|discriminate].
    destruct (IH (CameraController.focus getWorldDirection t
                    (CameraController.time f) (CameraController.delta f) s)
                eq_refl) as [IH1 IH2].
    rewrite IH1, IH2. cbn. rewrite Hs. split; reflexivity.
Qed.

(** X3.  The view direction is captured once, on the frame that enters
    focus: after a run of focus frames [lastDir] is what
    [getWorldDirection] gave on the first of them if the controller was
    not active before, and is untouched if it was; frames of the default
    view that follow clear [isActive] and keep [lastDir]. *)
Theorem lastDir_captured_on_entry
    (getWorldDirection : Camera -> Vector3)
    (f : CameraController.Frame) (fs gs : list CameraController.Frame)
    (s : CameraController.State) :
  Forall (fun f => CameraController.focused f = true) (f :: fs) ->
  Forall (fun g => CameraController.focused g = false) gs ->
  let entered := CameraController.run getWorldDirection (f :: fs) s in
  let left := CameraController.run getWorldDirection gs entered in
  CameraController.lastDir entered
  = (if CameraController.isActive s then CameraController.lastDir s
     else getWorldDirection (CameraController.camera s))
  /\ CameraController.isActive entered = true
  /\ CameraController.lastDir left = CameraController.lastDir entered
  /\ (gs <> [] -> CameraController.isActive left = false).
Proof.
  intros Hf Hg entered left.
  inversion Hf as [|f' fs' Hf1 Hfs]; subst.
  assert (Hent : CameraController.lastDir entered
                 = (if CameraController.isActive s
                    then CameraController.lastDir s
                    else getWorldDirection (CameraController.camera s))
                 /\ CameraController.isActive entered = true).
  { unfold entered. rewrite run_cons.
    unfold CameraController.focused in Hf1.
    unfold CameraController.useFrame.
    destruct (CameraController.isFocusing f); [|discriminate].
    destruct (CameraController.target f) as [t|]; [|discriminate].
    destruct (focus_run_bookkeeping getWorldDirection fs
                (CameraController.focus getWorldDirection t
                   (CameraController.time f) (CameraController.delta f) s)
                Hfs eq_refl) as [B1 B2].
    rewrite B1, B2. split; reflexivity. }
  destruct Hent as [E1 E2].
  assert (Hleft : left = Nat.iter (length gs) CameraController.relax entered)
    by (apply run_unfocused; exact Hg).
  assert (Hdir : forall n t,
             CameraController.lastDir
               (Nat.iter n CameraController.relax t)
             = CameraController.lastDir t).
  { induction n as [|n IHn]; intros t; [reflexivity|].
    rewrite Nat.iter_succ. cbn. apply IHn. }
  repeat split; try assumption.
  - rewrite Hleft. apply Hdir.
  - intros Hne. rewrite Hleft. destruct gs as [|g gs']; [contradiction|].
    cbn [length]. rewrite Nat.iter_succ. reflexivity.
Qed.

Lemma lastDir_captured_on_entry_witness :
  CameraController.lastDir
    (CameraController.run forward [focus_frame_a; focus_frame_b]
       (CameraController.init camera0))
  = forward camera0.
Proof.
  refine (proj1 (lastDir_captured_on_entry forward focus_frame_a
                   [focus_frame_b] [default_frame]
                   (CameraController.init camera0) _ _)).
  - repeat constructor.
  - repeat constructor.
Defined.

(** * Further properties of the current scene *)

Lemma reachable_in_sync (width : R) (u : SolarSystem.UI) :
  SolarSystem.reachable width u ->
  SolarSystem.isFocusing u = truthy (SolarSystem.selected u).
Proof.
  intros H. pose proof (reachable_selected width u H) as Hsel.
  induction H as [|p u Hu _ Hp|u _ _|u Hu IH].
  - reflexivity.
  - destruct (Hsel (SolarSystem.name p) eq_refl) as [Hn _].
    cbn. destruct (decide (SolarSystem.name p = "")); [contradiction|].
    reflexivity.
  - reflexivity.
  - apply IH. exact Hsel.
Qed.

Lemma getPlanetPosition_null (sel : option string)
    (planetRefs : gmap string (option Group)) (st : Vector3) :
  match fst (SolarSystem.getPlanetPosition sel planetRefs st) with
  | Some tgt => truthy sel = true
                /\ tgt = snd (SolarSystem.getPlanetPosition sel planetRefs st)
  | None => truthy sel = false
            /\ snd (SolarSystem.getPlanetPosition sel planetRefs st) = st
  end.
Proof.
  unfold SolarSystem.getPlanetPosition.
  destruct sel as [n|]; [|split; reflexivity].
  destruct (truthy (Some n)) eqn:T; [|split; reflexivity].
  destruct (planetRefs !! n) as [[g|]|]; split; reflexivity.
Qed.

(** X4.  In every state the click, back and hint handlers of the scene
    produce, the store flag is on exactly when a planet is selected, and
    the getter returns [null] exactly when it is off: a frame of the
    camera runs the focus branch on the getter's value when a planet is
    selected and the default-view branch when none is, never the default
    view with the flag on. *)
Theorem scene_focus_iff_selected
    (getWorldDirection : Camera -> Vector3) (width : R) (u : SolarSystem.UI)
    (planetRefs : gmap string (option Group)) (time delta : R)
    (st : Vector3) (s : CameraController.State) :
  SolarSystem.reachable width u ->
  SolarSystem.isFocusing u = truthy (SolarSystem.selected u)
  /\ match fst (SolarSystem.getPlanetPosition (SolarSystem.selected u)
                  planetRefs st) with
     | Some tgt =>
         SolarSystem.isFocusing u = true
         /\ (exists n, SolarSystem.selected u = Some n)
         /\ snd (SolarSystem.cameraFrame getWorldDirection u planetRefs
                   time delta (st, s))
            = CameraController.focus getWorldDirection tgt time delta s
     | None =>
         SolarSystem.isFocusing u = false
         /\ SolarSystem.selected u = None
         /\ snd (SolarSystem.cameraFrame getWorldDirection u planetRefs
                   time delta (st, s))
            = CameraController.relax s
     end.
Proof.
  intros Hu. pose proof (reachable_in_sync width u Hu) as Hsync.
  pose proof (reachable_selected width u Hu) as Hsel.
  split; [exact Hsync|].
  pose proof (getPlanetPosition_null (SolarSystem.selected u) planetRefs st)
    as Hnull.
  unfold SolarSystem.cameraFrame. cbn [fst snd].
  destruct (fst (SolarSystem.getPlanetPosition (SolarSystem.selected u)
                   planetRefs st)) as [tgt|].
  - destruct Hnull as [T _]. rewrite T in Hsync.
    split; [exact Hsync|]. split.
    + destruct (SolarSystem.selected u) as [n|]; [eauto|discriminate].
    + unfold CameraController.useFrame. cbn. rewrite Hsync. reflexivity.
  - destruct Hnull as [T _]. rewrite T in Hsync.
    split; [exact Hsync|]. split.
    + destruct (SolarSystem.selected u) as [n|]; [|reflexivity].
      destruct (Hsel n eq_refl) as [Hn _]. cbn in T.
      destruct (decide (n = "")); [contradiction|discriminate].
    + unfold CameraController.useFrame. cbn. rewrite Hsync. reflexivity.
Qed.

Lemma scene_focus_iff_selected_witness :
  SolarSystem.isFocusing
    (SolarSystem.handleBack
       (SolarSystem.handleClick "Earth" SolarSystem.initUI))
  = truthy (SolarSystem.selected
              (SolarSystem.handleBack
                 (SolarSystem.handleClick "Earth" SolarSystem.initUI))).
Proof.
  refine (proj1 (scene_focus_iff_selected forward 1200
                   (SolarSystem.handleBack
                      (SolarSystem.handleClick "Earth" SolarSystem.initUI))
                   earth_mounted 2 (1 / 60) zero following _)).
  apply SolarSystem.reach_back.
  apply (SolarSystem.reach_click 1200 earth_wide SolarSystem.initUI).
  - apply SolarSystem.reach_init.
  - unfold earth_wide, SolarSystem.planets, SolarSystem.scaleFactor.
    destruct (Rlt_dec 1200 480); [lra|].
    destruct (Rlt_dec 1200 1024); [lra|].
    cbn. tauto.
Defined.

Lemma lerp_iter (v d : Vector3) (a : R) (n : nat) :
  Nat.iter n (fun v => lerp v d a) v
  = mkVector3 (x d + (x v - x d) * (1 - a) ^ n)
      (y d + (y v - y d) * (1 - a) ^ n)
      (z d + (z v - z d) * (1 - a) ^ n).
Proof.
  induction n as [|n IH].
  - destruct v. cbn. apply vector3_eq; lra.
  - rewrite Nat.iter_succ, IH. unfold lerp. cbn. apply vector3_eq; lra.
Qed.

Lemma lerp_iter_converges (v d : Vector3) (a eps : R) :
  0 < a <= 1 -> 0 < eps ->
  exists N : nat, forall n : nat, (N <= n)%nat ->
    within eps (Nat.iter n (fun v => lerp v d a) v) d.
Proof.
  intros Ha He.
  set (M := 1 + Rabs (x v - x d) + Rabs (y v - y d) + Rabs (z v - z d)).
  pose proof (Rabs_pos (x v - x d)). pose proof (Rabs_pos (y v - y d)).
  pose proof (Rabs_pos (z v - z d)).
  assert (HM : 0 < M) by (unfold M; lra).
  assert (Hq : Rabs (1 - a) < 1) by (rewrite Rabs_pos_eq; lra).
  assert (HeM : 0 < eps / M) by (apply Rdiv_lt_0_compat; lra).
  destruct (pow_lt_1_zero (1 - a) Hq (eps / M) HeM) as [N HN].
  exists N. intros n Hn. rewrite lerp_iter. unfold within. cbn.
  assert (Hp : Rabs ((1 - a) ^ n) < eps / M) by (apply HN; lia).
  repeat split; apply (decay_small _ _ _ M); try assumption; unfold M; lra.
Qed.

(** X5.  While a selected planet stays mounted at one world position, each
    call of the getter returns the vector it has just stored, and after [k]
    calls that vector is the planet's position plus the initial offset
    scaled by [0.8 ^ k]: for every tolerance it is within it of the planet
    from some call on. *)
Theorem getter_smooths_towards_planet
    (n : string) (planetRefs : gmap string (option Group)) (g : Group)
    (st : Vector3) (k : nat) (eps : R) :
  n <> "" -> planetRefs !! n = Some (Some g) -> 0 < eps ->
  let w := worldOrigin g in
  fst (SolarSystem.getPlanetPosition (Some n) planetRefs st)
  = Some (snd (SolarSystem.getPlanetPosition (Some n) planetRefs st))
  /\ SolarSystem.poll (Some n) planetRefs k st
     = mkVector3 (x w + (x st - x w) * 0.8 ^ k)
         (y w + (y st - y w) * 0.8 ^ k) (z w + (z st - z w) * 0.8 ^ k)
  /\ exists N : nat, forall k' : nat, (N <= k')%nat ->
       within eps (SolarSystem.poll (Some n) planetRefs k' st) w.
Proof.
  intros Hn Href He w.
  assert (Hstep : forall t,
             SolarSystem.getPlanetPosition (Some n) planetRefs t
             = (Some (lerp t w 0.2), lerp t w 0.2)).
  { intros t. unfold SolarSystem.getPlanetPosition, truthy.
    destruct (decide (n = "")); [contradiction|]. rewrite Href.
    reflexivity. }
  assert (Hpoll : forall j,
             SolarSystem.poll (Some n) planetRefs j st
             = Nat.iter j (fun v => lerp v w 0.2) st).
  { induction j as [|j IH]; [reflexivity|].
    unfold SolarSystem.poll in *. rewrite !Nat.iter_succ, IH, Hstep.
    reflexivity. }
  split; [rewrite Hstep; reflexivity|]. split.
  - rewrite Hpoll, lerp_iter. replace (1 - 0.2) with 0.8 by lra.
    reflexivity.
  - destruct (lerp_iter_converges st w 0.2 eps) as [N HN]; [lra|exact He|].
    exists N. intros k' Hk'. rewrite Hpoll. apply HN. exact Hk'.
Qed.

Lemma getter_smooths_towards_planet_witness :
  SolarSystem.poll (Some "Earth") earth_mounted 2 zero
  = mkVector3 (18 + (0 - 18) * 0.8 ^ 2) (0 + (0 - 0) * 0.8 ^ 2)
      (0 + (0 - 0) * 0.8 ^ 2).
Proof.
  refine (proj1 (proj2 (getter_smooths_towards_planet "Earth" earth_mounted
            (mkGroup (mkVector3 18 0 0) 0 (mkVector3 18 0 0)) zero 2 1
            _ _ _))).
  - discriminate.
  - reflexivity.
  - lra.
Defined.

(** X6.  Whatever the window width, the first frame of the default view
    puts the camera at [(0, 40, 120)]: the position the canvas was given for
    the width survives that frame only on windows at least 1024 wide, where
    it is the same point. *)
Theorem first_frame_overrides_canvas_position
    (getWorldDirection : Camera -> Vector3) (width : R) (lookAt : Vector3)
    (f : CameraController.Frame) :
  CameraController.focused f = false ->
  let canvas := mkCamera (SolarSystem.cameraPos width) lookAt in
  let s := CameraController.useFrame getWorldDirection f
             (CameraController.init canvas) in
  camPosition (CameraController.camera s) = mkVector3 0 40 120
  /\ (camPosition (CameraController.camera s) = camPosition canvas
      <-> 1024 <= width).
Proof.
  intros Hf canvas s.
  assert (Hs : camPosition (CameraController.camera s) = mkVector3 0 40 120).
  { unfold s. rewrite (useFrame_unfocused _ f _ Hf).
    unfold CameraController.relax, CameraController.defaultPos, lerp. cbn.
    apply vector3_eq; lra. }
  split; [exact Hs|]. rewrite Hs. unfold canvas, SolarSystem.cameraPos.
  cbn [camPosition].
  destruct (Rlt_dec width 480) as [H1|H1];
    [|destruct (Rlt_dec width 1024) as [H2|H2]]; split; intros H;
    try lra; try reflexivity; apply (f_equal y) in H; cbn in H; lra.
Qed.

Lemma first_frame_overrides_canvas_position_witness :
  camPosition
    (CameraController.camera
       (CameraController.useFrame forward default_frame
          (CameraController.init
             (mkCamera (SolarSystem.cameraPos 400) zero))))
  = mkVector3 0 40 120.
Proof.
  refine (proj1 (first_frame_overrides_canvas_position forward 400 zero
                   default_frame _)).
  reflexivity.
Defined.



Lemma circles_apart (r1 r2 a b e : R) :
  0 <= r1 -> 0 <= r2 -> 0 <= e -> e < r2 - r1 ->
  e * e < planar_dist2 (mkVector3 (r1 * cos a) 0 (r1 * sin a))
            (mkVector3 (r2 * cos b) 0 (r2 * sin b)).
Proof.
  intros H1 H2 He Hgap. unfold planar_dist2. cbn.
  pose proof (sin2_cos2 a) as Ha. pose proof (sin2_cos2 b) as Hb.
  unfold Rsqr in Ha, Hb.
  pose proof (COS_bound (a - b)) as Hc. rewrite cos_minus in Hc.
  set (c := cos a * cos b + sin a * sin b) in *.
  assert (E : (r1 * cos a - r2 * cos b) * (r1 * cos a - r2 * cos b)
              + (r1 * sin a - r2 * sin b) * (r1 * sin a - r2 * sin b)
              = r1 * r1 * (sin a * sin a + cos a * cos a)
                + r2 * r2 * (sin b * sin b + cos b * cos b)
                - 2 * (r1 * r2) * c) by (unfold c; ring).
  rewrite E, Ha, Hb.
  assert (Hp : 0 <= r1 * r2 * (1 - c)).
  { apply Rmult_le_pos; [apply Rmult_le_pos; assumption|lra]. }
  nra.
Qed.

Lemma planar_dist2_sym (a b : Vector3) : planar_dist2 a b = planar_dist2 b a.
Proof. unfold planar_dist2. ring. Qed.

Lemma scaleFactor_positive (width : R) : 0 < SolarSystem.scaleFactor width.
Proof.
  unfold SolarSystem.scaleFactor.
  destruct (Rlt_dec width 480), (Rlt_dec width 1024); lra.
Qed.

Lemma Rmax_scaled (a b k : R) : a <= b -> 0 < k -> Rmax (a * k) (b * k) = b * k.
Proof. intros Hab Hk. apply Rmax_right. nra. Qed.

(** X8.  At every window width and whatever the elapsed times, two
    different planets of the table are further apart in the orbital plane
    than the sum of their extents (sphere radius, or outer ring radius for
    Saturn), and every planet is further from the centre than the radius
    of the sun plus its extent: no two bodies ever touch. *)
Theorem planets_never_touch
    (width : R) (p q : SolarSystem.PlanetData) (tp tq : R) :
  In p (SolarSystem.planets width) -> In q (SolarSystem.planets width) ->
  SolarSystem.name p <> SolarSystem.name q ->
  (SolarSystem.extent p + SolarSystem.extent q)
  * (SolarSystem.extent p + SolarSystem.extent q)
  < planar_dist2 (SolarSystem.orbitPosition p tp)
      (SolarSystem.orbitPosition q tq)
  /\ (SolarSystem.Sun_radius + SolarSystem.extent p)
     * (SolarSystem.Sun_radius + SolarSystem.extent p)
     < planar_dist2 (SolarSystem.orbitPosition p tp) (mkVector3 0 0 0).
Proof.
  unfold SolarSystem.planets.
  pose proof (scaleFactor_positive width) as Hk.
  assert (Hk8 : 0.8 <= SolarSystem.scaleFactor width)
    by (unfold SolarSystem.scaleFactor;
        destruct (Rlt_dec width 480), (Rlt_dec width 1024); lra).
  set (k := SolarSystem.scaleFactor width) in *. cbn [In].
  assert (Hring : Rmax (3.0 * k) (5.5 * k) = 5.5 * k)
    by (apply Rmax_scaled; lra).
  intros Hp Hq Hne. split.
  - repeat (destruct Hp as [<- | Hp]);
      repeat (destruct Hq as [<- | Hq]);
      try contradiction; try (exfalso; apply Hne; reflexivity);
      unfold SolarSystem.orbitPosition, SolarSystem.angle,
        SolarSystem.extent;
      cbn [SolarSystem.distance SolarSystem.size SolarSystem.ring
           SolarSystem.outer SolarSystem.orbitSpeed];
      rewrite ?Hring;
      first [ apply circles_apart; nra
            | rewrite planar_dist2_sym; apply circles_apart; nra ].
  - replace (mkVector3 0 0 0)
      with (mkVector3 (0 * cos 0) 0 (0 * sin 0))
      by (apply vector3_eq; lra).
    rewrite planar_dist2_sym.
    repeat (destruct Hp as [<- | Hp]); try contradiction;
      unfold SolarSystem.orbitPosition, SolarSystem.angle,
        SolarSystem.extent, SolarSystem.Sun_radius;
      cbn [SolarSystem.distance SolarSystem.size SolarSystem.ring
           SolarSystem.outer SolarSystem.orbitSpeed];
      rewrite ?Hring; apply circles_apart; nra.
Qed.

Lemma planets_never_touch_witness :
  (SolarSystem.extent earth_wide
   + SolarSystem.extent (SolarSystem.mkPlanet "Mars" (1.0 * 1) (23 * 1)
                           0.018 0.5 None))
  * (SolarSystem.extent earth_wide
     + SolarSystem.extent (SolarSystem.mkPlanet "Mars" (1.0 * 1) (23 * 1)
                             0.018 0.5 None))
  < planar_dist2 (SolarSystem.orbitPosition earth_wide 7)
      (SolarSystem.orbitPosition
         (SolarSystem.mkPlanet "Mars" (1.0 * 1) (23 * 1) 0.018 0.5 None) 7).
Proof.
  refine (proj1 (planets_never_touch 1200 earth_wide
                   (SolarSystem.mkPlanet "Mars" (1.0 * 1) (23 * 1)
                      0.018 0.5 None) 7 7 _ _ _)).
  - unfold earth_wide, SolarSystem.planets, SolarSystem.scaleFactor.
    destruct (Rlt_dec 1200 480); [lra|].
    destruct (Rlt_dec 1200 1024); [lra|].
    cbn. tauto.
  - unfold SolarSystem.planets, SolarSystem.scaleFactor.
    destruct (Rlt_dec 1200 480); [lra|].
    destruct (Rlt_dec 1200 1024); [lra|].
    cbn. tauto.
  - discriminate.
Defined.

(** * Orbit lines and planet frames *)

Lemma Orbit_nth (dist : R) (i : nat) :
  (i < 129)%nat ->
  nth i (SolarSystem.Orbit dist) zero
  = mkVector3 (cos (INR i / 128 * 2 * PI) * dist) 0
      (sin (INR i / 128 * 2 * PI) * dist).
Proof.
  intros Hi. unfold SolarSystem.Orbit.
  set (f := fun i : nat =>
              let a := INR i / 128 * 2 * PI in
              mkVector3 (cos a * dist) 0 (sin a * dist)).
  rewrite (nth_indep _ zero (f 0%nat))
    by (rewrite length_map, length_seq; exact Hi).
  rewrite map_nth, seq_nth by exact Hi. reflexivity.
Qed.

(** X9.  The orbit line of a planet has 129 vertices, each on the circle
    of the planet's radius in the plane [y = 0]; it starts at
    [(distance, 0, 0)] and its last vertex is its first, so the line is
    closed; the position every frame writes for the planet is on that same
    circle. *)
Theorem orbit_line_closed_circle
    (p : SolarSystem.PlanetData) (v : Vector3) (elapsed : R) :
  In v (SolarSystem.Orbit (SolarSystem.distance p)) ->
  length (SolarSystem.Orbit (SolarSystem.distance p)) = 129%nat
  /\ on_circle (SolarSystem.distance p) v
  /\ on_circle (SolarSystem.distance p) (SolarSystem.orbitPosition p elapsed)
  /\ nth 0 (SolarSystem.Orbit (SolarSystem.distance p)) zero
     = mkVector3 (SolarSystem.distance p) 0 0
  /\ nth 128 (SolarSystem.Orbit (SolarSystem.distance p)) zero
     = nth 0 (SolarSystem.Orbit (SolarSystem.distance p)) zero.
Proof.
  intros Hv. split; [|split; [|split; [|split]]].
  - unfold SolarSystem.Orbit. rewrite length_map, length_seq. reflexivity.
  - unfold SolarSystem.Orbit in Hv. apply in_map_iff in Hv.
    destruct Hv as (i & <- & _). cbv zeta.
    destruct (circle_point (SolarSystem.distance p) (INR i / 128 * 2 * PI))
      as [Hc _].
    split; cbn in *; [nra|reflexivity].
  - apply circle_point.
  - rewrite Orbit_nth by lia.
    replace (INR 0 / 128 * 2 * PI) with 0 by (cbn; lra).
    rewrite cos_0, sin_0. apply vector3_eq; lra.
  - rewrite !Orbit_nth by lia.
    replace (INR 0 / 128 * 2 * PI) with 0 by (cbn; lra).
    assert (H128 : INR 128 = 128) by (rewrite INR_IZR_INZ; reflexivity).
    replace (INR 128 / 128 * 2 * PI) with (2 * PI) by (rewrite H128; lra).
    rewrite cos_0, sin_0, cos_2PI, sin_2PI. reflexivity.
Qed.

Lemma orbit_line_closed_circle_witness :
  on_circle (SolarSystem.distance earth_wide)
    (nth 32 (SolarSystem.Orbit (SolarSystem.distance earth_wide)) zero).
Proof.
  refine (proj1 (proj2 (orbit_line_closed_circle earth_wide
            (nth 32 (SolarSystem.Orbit (SolarSystem.distance earth_wide)) zero)
            0 _))).
  apply nth_In. unfold SolarSystem.Orbit.
  rewrite length_map, length_seq. lia.
Defined.

Lemma Planet_run_snoc (p : Planet.PlanetProps) (ts : list R) (t : R)
    (g : Group) :
  Planet.run p (ts ++ [t]) g = Planet.update p t (Planet.run p ts g).
Proof. unfold Planet.run. rewrite fold_left_app. reflexivity. Qed.

Lemma Planet_run_spin (p : Planet.PlanetProps) (ts : list R) (g : Group) :
  rotationY (Planet.run p ts g)
  = rotationY g + INR (length ts) * Planet.rotationSpeed p
  /\ worldOrigin (Planet.run p ts g) = worldOrigin g.
Proof.
  induction ts as [|t ts IH] using rev_ind.
  - cbn. split; [lra|reflexivity].
  - destruct IH as [IH1 IH2]. rewrite Planet_run_snoc. cbn.
    rewrite IH1, IH2, length_app, Nat.add_comm. cbn [length Nat.add].
    rewrite S_INR. split; [lra|reflexivity].
Qed.

(** X10.  After any sequence of frames the planet sits where the last
    elapsed time alone puts it, however the earlier frames were spaced,
    while its spin has grown by [rotationSpeed] per frame, so by the number
    of frames and not by the time elapsed; the [PlanetGroup] of the current
    scene moves the same way and never spins. *)
Theorem planet_position_forgets_history
    (p : Planet.PlanetProps) (q : SolarSystem.PlanetData)
    (ts : list R) (t : R) (g : Group) :
  position (Planet.run p (ts ++ [t]) g)
  = Planet.orbitPosition (Planet.distance p) (Planet.orbitSpeed_or_default p) t
  /\ rotationY (Planet.run p (ts ++ [t]) g)
     = rotationY g + INR (S (length ts)) * Planet.rotationSpeed p
  /\ position (SolarSystem.PlanetGroup_run q (ts ++ [t]) g)
     = SolarSystem.orbitPosition q t
  /\ rotationY (SolarSystem.PlanetGroup_run q (ts ++ [t]) g) = rotationY g.
Proof.
  split; [rewrite Planet_run_snoc; reflexivity|]. split.
  - destruct (Planet_run_spin p (ts ++ [t]) g) as [H _].
    rewrite H, length_app, Nat.add_comm. reflexivity.
  - unfold SolarSystem.PlanetGroup_run. rewrite fold_left_app. cbn.
    split; [reflexivity|].
    induction ts as [|a ts IH] using rev_ind; [reflexivity|].
    rewrite fold_left_app. cbn. exact IH.
Qed.

(** * Further properties of the orbiting controllers *)

Lemma orbit_run_snoc (targetPlanet : option Vector3) (hasGetter : bool)
    (ticks : list OrbitCameraController.Tick)
    (t : OrbitCameraController.Tick) (s : OrbitCameraController.State) :
  OrbitCameraController.run targetPlanet hasGetter (ticks ++ [t]) s
  = OrbitCameraController.useFrame targetPlanet
      (if hasGetter then Some (OrbitCameraController.planetPos t) else None)
      (OrbitCameraController.mouse t) (OrbitCameraController.elapsed t)
      (OrbitCameraController.run targetPlanet hasGetter ticks s).
Proof.
  unfold OrbitCameraController.run. rewrite fold_left_app. reflexivity.
Qed.

Lemma inline_run_snoc (targetPlanetName : option string)
    (ticks : list InlineSolarSystem.Tick) (t : InlineSolarSystem.Tick)
    (s : InlineSolarSystem.State) :
  InlineSolarSystem.run targetPlanetName (ticks ++ [t]) s
  = InlineSolarSystem.CameraController_useFrame targetPlanetName
      (InlineSolarSystem.planetRefs t) (InlineSolarSystem.mouse t)
      (InlineSolarSystem.now t)
      (InlineSolarSystem.run targetPlanetName ticks s).
Proof.
  unfold InlineSolarSystem.run. rewrite fold_left_app. reflexivity.
Qed.

(** X11.  Between two renders the angle of either orbiting controller
    counts the frames of free orbit: with nothing selected it is the
    starting angle plus 0.001 per frame, whatever the pointer and the clock
    did; with a planet selected (and, in the controller with a getter prop,
    the prop passed) it does not move, whether or not the planet's position
    resolves. *)
Theorem orbit_angle_counts_free_frames
    (hasGetter : bool) (tp : Vector3) (n : string)
    (ticks1 : list OrbitCameraController.Tick)
    (s1 : OrbitCameraController.State)
    (ticks2 : list InlineSolarSystem.Tick) (s2 : InlineSolarSystem.State) :
  n <> "" ->
  OrbitCameraController.angle
    (OrbitCameraController.run None hasGetter ticks1 s1)
  = OrbitCameraController.angle s1 + 0.001 * INR (length ticks1)
  /\ OrbitCameraController.angle
       (OrbitCameraController.run (Some tp) false ticks1 s1)
     = OrbitCameraController.angle s1 + 0.001 * INR (length ticks1)
  /\ OrbitCameraController.angle
       (OrbitCameraController.run (Some tp) true ticks1 s1)
     = OrbitCameraController.angle s1
  /\ InlineSolarSystem.angle (InlineSolarSystem.run None ticks2 s2)
     = InlineSolarSystem.angle s2 + 0.001 * INR (length ticks2)
  /\ InlineSolarSystem.angle (InlineSolarSystem.run (Some n) ticks2 s2)
     = InlineSolarSystem.angle s2.
Proof.
  intros Hn. split; [|split; [|split; [|split]]].
  - induction ticks1 as [|t ts IH] using rev_ind; [cbn; lra|].
    rewrite orbit_run_snoc, length_app, Nat.add_comm. cbn [length Nat.add].
    rewrite S_INR. unfold OrbitCameraController.useFrame.
    cbn [OrbitCameraController.freeOrbit OrbitCameraController.angle].
    rewrite IH. unfold OrbitCameraController.rotationSpeed. lra.
  - induction ticks1 as [|t ts IH] using rev_ind; [cbn; lra|].
    rewrite orbit_run_snoc, length_app, Nat.add_comm. cbn [length Nat.add].
    rewrite S_INR. unfold OrbitCameraController.useFrame.
    cbn [OrbitCameraController.freeOrbit OrbitCameraController.angle].
    rewrite IH. unfold OrbitCameraController.rotationSpeed. lra.
  - induction ticks1 as [|t ts IH] using rev_ind; [reflexivity|].
    rewrite orbit_run_snoc. unfold OrbitCameraController.useFrame.
    destruct (OrbitCameraController.planetPos t); cbn; exact IH.
  - induction ticks2 as [|t ts IH] using rev_ind; [cbn; lra|].
    rewrite inline_run_snoc, length_app, Nat.add_comm. cbn [length Nat.add].
    rewrite S_INR. unfold InlineSolarSystem.CameraController_useFrame.
    cbn [InlineSolarSystem.freeOrbit InlineSolarSystem.angle].
    rewrite IH. unfold InlineSolarSystem.rotationSpeed. lra.
  - induction ticks2 as [|t ts IH] using rev_ind; [reflexivity|].
    rewrite inline_run_snoc.
    unfold InlineSolarSystem.CameraController_useFrame, truthy.
    destruct (decide (n = "")); [contradiction|].
    destruct (InlineSolarSystem.planetRefs t !! n) as [[g|]|]; cbn; exact IH.
Qed.

Lemma orbit_angle_counts_free_frames_witness :
  OrbitCameraController.angle
    (OrbitCameraController.run None true [blind_tick; earth_tick] orbiting)
  = OrbitCameraController.angle orbiting + 0.001 * INR 2.
Proof.
  refine (proj1 (orbit_angle_counts_free_frames true zero "Earth"
                   [blind_tick; earth_tick] orbiting
                   [empty_tick] (InlineSolarSystem.init camera0) _)).
  discriminate.
Defined.

Lemma follow_run (tp planet : Vector3)
    (ticks : list OrbitCameraController.Tick)
    (s : OrbitCameraController.State) :
  Forall (fun t => OrbitCameraController.planetPos t = Some planet) ticks ->
  camPosition (OrbitCameraController.camera
                 (OrbitCameraController.run (Some tp) true ticks s))
  = Nat.iter (length ticks)
      (fun v => lerp v (add planet (mkVector3 0 5 15)) 0.08)
      (camPosition (OrbitCameraController.camera s)).
Proof.
  intros H. revert s. induction H as [|t ts Ht _ IH]; intros s.
  - reflexivity.
  - cbn [length]. rewrite Nat.iter_succ_r.
    unfold OrbitCameraController.run in *. cbn [fold_left].
    rewrite IH. unfold OrbitCameraController.useFrame. rewrite Ht.
    reflexivity.
Qed.

(** X12.  While the getter keeps returning one position, every frame of
    the orbiting controller's follow branch closes 8% of the camera's
    distance to that position plus [(0, 5, 15)]: after [n] frames the
    offset left is the initial one times [0.92 ^ n], for every tolerance
    the camera is within it of that point from some frame on, and it looks
    at the position plus [(0, 2, 0)]. *)
Theorem follow_converges_to_offset
    (tp planet : Vector3) (ticks : list OrbitCameraController.Tick)
    (s : OrbitCameraController.State) (eps : R) :
  Forall (fun t => OrbitCameraController.planetPos t = Some planet) ticks ->
  0 < eps ->
  let goal := add planet (mkVector3 0 5 15) in
  let c := camPosition (OrbitCameraController.camera s) in
  let s' := OrbitCameraController.run (Some tp) true ticks s in
  camPosition (OrbitCameraController.camera s')
  = mkVector3 (x goal + (x c - x goal) * 0.92 ^ length ticks)
      (y goal + (y c - y goal) * 0.92 ^ length ticks)
      (z goal + (z c - z goal) * 0.92 ^ length ticks)
  /\ (ticks <> [] ->
      camLookAt (OrbitCameraController.camera s')
      = add planet (mkVector3 0 2 0))
  /\ exists N : nat,
       forall ticks' : list OrbitCameraController.Tick,
         Forall (fun t => OrbitCameraController.planetPos t = Some planet)
           ticks' ->
         (N <= length ticks')%nat ->
         within eps
           (camPosition (OrbitCameraController.camera
                           (OrbitCameraController.run (Some tp) true
                              ticks' s)))
           goal.
Proof.
  intros H He goal c s'. split; [|split].
  - unfold s'. rewrite (follow_run tp planet ticks s H), lerp_iter.
    replace (1 - 0.08) with 0.92 by lra. reflexivity.
  - intros Hne. unfold s'.
    destruct ticks as [|t ts] using rev_ind; [contradiction|].
    rewrite orbit_run_snoc. apply List.Forall_app in H. destruct H as [_ H].
    inversion H as [|t' l' Ht _]; subst.
    unfold OrbitCameraController.useFrame. rewrite Ht. reflexivity.
  - destruct (lerp_iter_converges c goal 0.08 eps) as [N HN];
      [lra|exact He|].
    exists N. intros ticks' H' Hlen.
    rewrite (follow_run tp planet ticks' s H'). apply HN. exact Hlen.
Qed.

Lemma follow_converges_to_offset_witness :
  camLookAt (OrbitCameraController.camera
               (OrbitCameraController.run (Some zero) true
                  [earth_tick; earth_tick] orbiting))
  = add (mkVector3 16 0 0) (mkVector3 0 2 0).
Proof.
  refine (proj1 (proj2 (follow_converges_to_offset zero (mkVector3 16 0 0)
                   [earth_tick; earth_tick] orbiting 1 _ _)) _).
  - repeat apply List.Forall_cons; try apply List.Forall_nil; reflexivity.
  - lra.
  - discriminate.
Defined.

(** X13.  In the orbiting controllers a selected planet whose position
    does not resolve (the getter returns [null]; the name has no ref, or
    its ref holds [null]) freezes the controller: however many such frames
    pass, camera position, look-at point and angle are exactly what they
    were. *)
Theorem unresolved_target_freezes_orbit_controller
    (tp : Vector3) (n : string)
    (ticks1 : list OrbitCameraController.Tick)
    (s1 : OrbitCameraController.State)
    (ticks2 : list InlineSolarSystem.Tick) (s2 : InlineSolarSystem.State) :
  n <> "" ->
  Forall (fun t => OrbitCameraController.planetPos t = None) ticks1 ->
  Forall (fun t => InlineSolarSystem.planetRefs t !! n = None
                   \/ InlineSolarSystem.planetRefs t !! n = Some None)
    ticks2 ->
  OrbitCameraController.run (Some tp) true ticks1 s1 = s1
  /\ InlineSolarSystem.run (Some n) ticks2 s2 = s2.
Proof.
  intros Hn H1 H2. split.
  - induction H1 as [|t ts Ht _ IH]; [reflexivity|].
    unfold OrbitCameraController.run in *. cbn [fold_left].
    unfold OrbitCameraController.useFrame at 2. rewrite Ht. exact IH.
  - induction H2 as [|t ts Ht _ IH]; [reflexivity|].
    unfold InlineSolarSystem.run in *. cbn [fold_left].
    unfold InlineSolarSystem.CameraController_useFrame at 2, truthy.
    destruct (decide (n = "")); [contradiction|].
    destruct Ht as [-> | ->]; exact IH.
Qed.

Lemma unresolved_target_freezes_orbit_controller_witness :
  OrbitCameraController.run (Some zero) true [blind_tick; blind_tick] orbiting
  = orbiting.
Proof.
  refine (proj1 (unresolved_target_freezes_orbit_controller zero "Earth"
                   [blind_tick; blind_tick] orbiting
                   [empty_tick] (InlineSolarSystem.init camera0) _ _ _)).
  - discriminate.
  - repeat apply List.Forall_cons; try apply List.Forall_nil; reflexivity.
  - repeat apply List.Forall_cons; try apply List.Forall_nil.
    left. reflexivity.
Defined.

(** * The position-keyed overlay *)

(** X14.  The rows of the overlay's table are more than two units apart,
    so at most one is within 1 of a target's [x]: when a row is, the
    overlay shows that row's info, whichever rows come before it; when none
    is, it shows nothing. *)
Theorem overlay_shows_row_within_one
    (p : OverlayInfo.PlanetRow) (v w : Vector3) :
  In p OverlayInfo.planets ->
  Rabs (OverlayInfo.distance p - x v) < 1 ->
  OverlayInfo.OverlayInfo (Some v) = Some (OverlayInfo.info p)
  /\ ((forall q, In q OverlayInfo.planets ->
                 1 <= Rabs (OverlayInfo.distance q - x w)) ->
      OverlayInfo.OverlayInfo (Some w) = None).
Proof.
  intros Hin H. split.
  - apply Rabs_def2 in H.
    assert (Hnear : forall q, OverlayInfo.near (x v) q = true ->
                              -1 < OverlayInfo.distance q - x v < 1).
    { intros q E. apply near_spec in E. apply Rabs_def2 in E. lra. }
    assert (Hp : OverlayInfo.near (x v) p = true)
      by (apply near_spec; apply Rabs_def1; lra).
    unfold OverlayInfo.OverlayInfo, OverlayInfo.effect.
    unfold OverlayInfo.planets in *. cbn [In] in Hin. cbn [find].
    repeat (destruct Hin as [<- | Hin]); try contradiction;
      repeat match goal with
        | |- context [OverlayInfo.near (x v) ?q] =>
            let E := fresh "E" in
            destruct (OverlayInfo.near (x v) q) eqn:E;
            [ try reflexivity; apply Hnear in E; cbn in E, H; exfalso; lra
            | try congruence ]
        end.
  - intros Hfar. unfold OverlayInfo.OverlayInfo, OverlayInfo.effect.
    rewrite overlay_found.
    destruct (find (OverlayInfo.near (x w)) OverlayInfo.planets)
      as [q|] eqn:F; [|reflexivity].
    apply find_some in F. destruct F as [Hq Hn].
    apply near_spec in Hn. specialize (Hfar q Hq). lra.
Qed.

Lemma overlay_shows_row_within_one_witness :
  OverlayInfo.OverlayInfo (Some (mkVector3 16.5 0 0))
  = Some "Our home planet".
Proof.
  refine (proj1 (overlay_shows_row_within_one
                   (OverlayInfo.mkRow "Earth" 16 "Our home planet")
                   (mkVector3 16.5 0 0) quarter_orbit _ _)).
  - unfold OverlayInfo.planets. cbn. tauto.
  - cbn. apply Rabs_def1; lra.
Defined.

(** * Names without an entry, and the empty name *)

(** X15.  A selected name that is not empty, not a key of the table and
    not a name inherited from [Object.prototype] still opens the panel,
    with the looked-up text missing, in both scenes; the empty name is
    treated as no selection by every reader: no panel is rendered, the
    inline controller stays in free orbit, and the getter of the current
    scene returns [null] without touching its smoothed target. *)
Theorem selection_edge_cases
    (n : string) (flag hint : bool)
    (planetRefs : gmap string (option Group))
    (mouse : InlineSolarSystem.Vector2) (now : R)
    (s : InlineSolarSystem.State) (st : Vector3) :
  n <> "" ->
  ~ In n Object_prototype_keys ->
  InlineSolarSystem.planetInfo !! n = None ->
  SolarSystem.planetInfo !! n = None ->
  InlineSolarSystem.InfoOverlay (Some n) = Some None
  /\ SolarSystem.renderInfoPanel (SolarSystem.mkUI (Some n) flag hint)
     = Some (SolarSystem.mkPanel n None)
  /\ InlineSolarSystem.InfoOverlay (Some "") = None
  /\ SolarSystem.renderInfoPanel (SolarSystem.mkUI (Some "") flag hint)
     = None
  /\ InlineSolarSystem.CameraController_useFrame (Some "") planetRefs
       mouse now s
     = InlineSolarSystem.freeOrbit mouse now s
  /\ SolarSystem.getPlanetPosition (Some "") planetRefs st = (None, st).
Proof.
  intros Hn _ H2 H3.
  unfold InlineSolarSystem.InfoOverlay, SolarSystem.renderInfoPanel,
    SolarSystem.InfoPanel, truthy. cbn [SolarSystem.selected].
  destruct (decide (n = "")); [contradiction|]. rewrite H2, H3.
  repeat split; reflexivity.
Qed.

Lemma selection_edge_cases_witness :
  InlineSolarSystem.InfoOverlay (Some "Pluto") = Some None.
Proof.
  refine (proj1 (selection_edge_cases "Pluto" true true ∅
                   (InlineSolarSystem.mkVector2 0 0) 0
                   (InlineSolarSystem.init camera0) zero _ _ _ _)).
  - discriminate.
  - unfold Object_prototype_keys. cbn [In]. intros H.
    repeat (destruct H as [H|H]; [discriminate|]). exact H.
  - reflexivity.
  - reflexivity.
Defined.
